(** * chadtree: the state-transition handlers of [chadtree/transitions.py]

    A shallow embedding of the action handlers of the file-explorer sidebar
    and of the path-set algebra they rely on.  Paths are Python [str]
    values (Rocq strings), the expanded-directory index and the selection
    are finite sets of paths, and every call that leaves the handler (the
    editor, the file system, the prompts) is an explicit effect of a small
    free monad, so that the order of prompts and mutations can be read off
    a trace. *)

From Stdlib Require Import ZArith Ascii String Lia Wf_nat.
From stdpp Require Import base decidable option list strings gmap sets.

Local Open Scope string_scope.
Local Open Scope Z_scope.
Local Open Scope list_scope.

#[local] Set Warnings "-register-all".

Abbreviation Path := string (only parsing).

(** ** [os.path] (POSIX flavour) on strings *)

Module PosixPath.

Definition sep : ascii := "/"%char.

Definition is_sep (c : ascii) : bool := bool_decide (c = sep).

(** [split_last p = (p[:i], p[i:])] with [i = p.rfind('/') + 1]. *)
Fixpoint split_last (p : string) : string * string :=
  match p with
  | EmptyString => (EmptyString, EmptyString)
  | String c rest =>
      let '(h, t) := split_last rest in
      match h with
      | String _ _ => (String c h, t)
      | EmptyString =>
          if is_sep c then (String c EmptyString, t)
          else (EmptyString, String c t)
      end
  end.

(** [s.rstrip('/')] *)
Fixpoint rstrip_sep (s : string) : string :=
  match s with
  | EmptyString => EmptyString
  | String c rest =>
      match rstrip_sep rest with
      | EmptyString => if is_sep c then EmptyString else String c EmptyString
      | r => String c r
      end
  end.

(** [posixpath.basename] *)
Definition basename (p : string) : string := snd (split_last p).

(** [posixpath.dirname]: the head keeps its slashes when it consists of
    slashes only, and loses the trailing ones otherwise. *)
Definition dirname (p : string) : string :=
  let head := fst (split_last p) in
  match rstrip_sep head with
  | EmptyString => head
  | stripped => stripped
  end.

Definition starts_with_sep (s : string) : bool :=
  match s with
  | String c _ => is_sep c
  | EmptyString => false
  end.

Fixpoint ends_with_sep (s : string) : bool :=
  match s with
  | EmptyString => false
  | String c EmptyString => is_sep c
  | String _ rest => ends_with_sep rest
  end.

(** [posixpath.join a b] for one component [b]. *)
Definition join (a b : string) : string :=
  if starts_with_sep b then b
  else match a with
       | EmptyString => b
       | _ => if ends_with_sep a then a +:+ b else a +:+ "/" +:+ b
       end.

End PosixPath.

Import PosixPath.

(** ** Path-set algebra ([chadtree/fs.py]) *)

Module Fs.

(** The chain [dirname p, dirname (dirname p), ...] of a path, nearest
    directory first.  It stops where [dirname] has nothing more to give:
    at the empty string (a relative path has been used up) or at a fixed
    point (the root of the file system).  [dirname] never lengthens a
    path, so the length of [p] is enough fuel. *)
Fixpoint lineage (fuel : nat) (p : Path) : list Path :=
  match fuel with
  | O => []
  | S n =>
      let d := dirname p in
      if decide (d = p ∨ d = "") then [] else d :: lineage n d
  end.

Definition parents (p : Path) : list Path := lineage (String.length p) p.

(** [a] is a proper ancestor of [p]. *)
Definition ancestor_of (a p : Path) : Prop := a ∈ parents p.

#[global] Instance ancestor_of_dec a p : Decision (ancestor_of a p).
Proof. unfold ancestor_of. apply _. Defined.

(** The root of the file system is where [dirname] stops. *)
Definition is_fs_root (p : Path) : Prop := dirname p = p.

#[global] Instance is_fs_root_dec p : Decision (is_fs_root p).
Proof. unfold is_fs_root. apply _. Defined.

(** Modelled from the spec: [ancestors] of [chadtree/fs.py], which is not
    among the sources.  "Every proper ancestor of [path] up to (not
    including) the filesystem root". *)
Definition ancestors (p : Path) : list Path :=
  filter (λ a, ¬ is_fs_root a) (parents p).

(** Modelled from the spec: [is_parent] of [chadtree/fs.py], which is not
    among the sources.  "Strict or equal containment test": the child is
    the parent itself or lies below it. *)
Definition is_parent (parent child : Path) : bool :=
  bool_decide (child = parent ∨ ancestor_of parent child).

(** Modelled from the spec: [unify_ancestors] of [chadtree/fs.py], which
    is not among the sources.  "Given an arbitrary set of paths, returns
    the minimal subset such that no returned path is an ancestor of
    another returned path": the paths of the set that have no proper
    ancestor in the set. *)
Definition unify_ancestors (paths : gset Path) : gset Path :=
  filter (λ p, Forall (λ a, a ∉ paths) (parents p)) paths.

End Fs.

Import Fs.

(** ** Data model ([chadtree/types.py]) *)

Inductive Mode := folder | file | link | orphan_link | executable.

#[global] Instance Mode_eq_dec : EqDecision Mode.
Proof. solve_decision. Defined.

#[global] Instance Mode_countable : Countable Mode.
Proof.
  refine (inj_countable'
    (λ m, match m with
          | folder => 0 | file => 1 | link => 2
          | orphan_link => 3 | executable => 4
          end%nat)
    (λ n, match n with
          | 0 => folder | 1 => file | 2 => link
          | 3 => orphan_link | _ => executable
          end%nat) _).
  by intros [].
Defined.

Inductive ClickType := primary | secondary | tertiary | v_split | h_split.

Module Node.
(** One entry of the tree.  [children] is absent, not empty, for a
    folder that has not been loaded. *)
Inductive t : Type :=
  mk { path : Path;
       name : string;
       mode : gset Mode;
       children : option (gmap Path t) }.
End Node.
Abbreviation Node := Node.t.

Module FilterPattern.
Record t : Type := mk { pattern : string }.
End FilterPattern.
Abbreviation FilterPattern := FilterPattern.t.

Module VCStatus.
Record t : Type :=
  mk { ignored : gset Path; status : gmap Path string }.
(** [VCStatus()] *)
Definition empty : t := {| ignored := ∅; status := ∅ |}.
End VCStatus.
Abbreviation VCStatus := VCStatus.t.

Module QuickFix.
Record t : Type := mk { locations : gmap Path nat }.
End QuickFix.
Abbreviation QuickFix := QuickFix.t.

Module Settings.
Record t : Type :=
  mk { mime_warn : gset string;          (* settings.mime.warn *)
       mime_ignore_exts : gset string }. (* settings.mime.ignore_exts *)
End Settings.
Abbreviation Settings := Settings.t.

Module State.
Record t : Type :=
  mk { root : Node;
       index : gset Path;
       selection : gset Path;
       filter_pattern : option FilterPattern;
       show_hidden : bool;
       follow : bool;
       enable_vc : bool;
       vc : VCStatus;
       width : Z;
       current : option Path;
       paths_lookup : gmap Path Z;
       qf : QuickFix }.
End State.
Abbreviation State := State.t.

Module Stage.
(** [Stage(state, focus=None)] *)
Record t : Type := mk { state : State; focus : option Path }.
End Stage.
Abbreviation Stage := Stage.t.

Definition new_stage (state : State) : Stage :=
  {| Stage.state := state; Stage.focus := None |}.

(** ** Calls that leave the engine *)

(** The text of a raised exception. *)
Abbreviation Exn := string (only parsing).

(** One constructor per call into the editor, the file system or the
    tree builder; the index is the type of what the call returns.  A file
    system mutation returns [Some e] when it raised [e]. *)
Inductive Eff : Type → Type :=
(* the editor *)
| current_win_is_fm : Eff bool
    (* is_fm_buffer(nvim, buffer=win_get_buf(get_current_win())) *)
| win_get_cursor : Eff (Z * Z)
    (* (row, col) = nvim.api.win_get_cursor(get_current_win()) *)
| win_set_cursor (pos : Z * Z) : Eff unit
| buf_get_marks : Eff (Z * Z)
    (* the rows of the marks "<" and ">" of the current buffer *)
| find_current_buffer_name : Eff string
| write (msg : string) (error : bool) : Eff unit
| confirm (question choices : string) (default : Z) : Eff Z
| input (prompt text : string) : Eff (option string)
| resize_fm_windows (width : Z) : Eff unit
| show_file (state : State) (settings : Settings) (click_type : ClickType)
    : Eff unit
| kill_buffers (paths : gset Path) : Eff unit
(* the file system *)
| path_exists (p : Path) : Eff bool      (* os.path.exists, fs_exists *)
| isdir (p : Path) : Eff bool
| new (p : Path) : Eff (option Exn)
| rename (src dst : Path) : Eff (option Exn)
| remove (paths : list Path) : Eff (option Exn)
| trash (paths : list Path) : Eff (option Exn)
| cut (operations : list (Path * Path)) : Eff (option Exn)
| copy (operations : list (Path * Path)) : Eff (option Exn)
(* the tree builder and the overlays *)
| update (root : Node) (index : gset Path) (paths : option (gset Path))
    : Eff Node
| quickfix : Eff QuickFix
| status : Eff VCStatus.

(** A handler is a finite tree of such calls. *)
Inductive Prog (A : Type) : Type :=
| Ret (a : A)
| Vis {X : Type} (e : Eff X) (k : X → Prog A).
Arguments Ret {A} a.
Arguments Vis {A X} e k.

Fixpoint bind {A B : Type} (p : Prog A) (f : A → Prog B) : Prog B :=
  match p with
  | Ret a => f a
  | Vis e k => Vis e (λ x, bind (k x) f)
  end.

Notation "'let*' x ':=' p 'in' k" := (bind p (λ x, k))
  (at level 10, x name, p at level 100, k at level 200, only parsing).

(** [await e] *)
Definition call {X : Type} (e : Eff X) : Prog X := Vis e Ret.

(** What happened: a call and what it returned. *)
Inductive Event : Type :=
| Ev {X : Type} (e : Eff X) (x : X).

(** The world outside the engine answers every call; the answer may depend
    on everything that happened before. *)
Definition Oracle : Type := ∀ X : Type, list Event → Eff X → X.

(** Runs a handler against a world, from the history [tr]; returns the
    extended history and the handler's result. *)
Fixpoint run {A : Type} (o : Oracle) (p : Prog A) (tr : list Event)
  : list Event * A :=
  match p with
  | Ret a => (tr, a)
  | Vis e k => let x := o _ tr e in run o (k x) (tr ++ [Ev e x])
  end.

(** The calls that change the file system. *)
Definition mutation {X : Type} (e : Eff X) : bool :=
  match e with
  | new _ | rename _ _ | remove _ | trash _ | cut _ | copy _ => true
  | _ => false
  end.

(** The calls with an effect on the file system or on the editor's
    buffers, windows and tree, as opposed to queries, prompts and
    messages. *)
Definition side_effect {X : Type} (e : Eff X) : bool :=
  match e with
  | new _ | rename _ _ | remove _ | trash _ | cut _ | copy _
  | kill_buffers _ | show_file _ _ _ | resize_fm_windows _
  | win_set_cursor _ | update _ _ _ => true
  | _ => false
  end.

Definition is_mutation (ev : Event) : bool :=
  match ev with Ev e _ => mutation e end.

Definition is_side_effect (ev : Event) : bool :=
  match ev with Ev e _ => side_effect e end.

(** The exception a call raised, when it is a file-system mutation that
    raised one. *)
Definition raised {X : Type} (e : Eff X) : X → option Exn :=
  match e in Eff X return X → option Exn with
  | new _ | rename _ _ | remove _ | trash _ | cut _ | copy _ => λ r, r
  | _ => λ _, None
  end.

Definition raised_by (ev : Event) : option Exn :=
  match ev with Ev e x => raised e x end.

Fixpoint traverse {A B : Type} (f : A → Prog B) (l : list A)
  : Prog (list B) :=
  match l with
  | [] => Ret []
  | a :: l' =>
      let* b := f a in
      let* bs := traverse f l' in
      Ret (b :: bs)
  end.

(** [[a for a in l if await f(a)]] *)
Fixpoint filter_by {A : Type} (f : A → Prog bool) (l : list A)
  : Prog (list A) :=
  match l with
  | [] => Ret []
  | a :: l' =>
      let* keep := f a in
      let* rest := filter_by f l' in
      Ret (if keep then a :: rest else rest)
  end.

(** ** Python values *)

(** Truth value of a [str]. *)
Definition nonempty (s : string) : bool :=
  match s with EmptyString => false | _ => true end.

(** Truth value of an [Optional[str]]. *)
Definition truthy (o : option string) : bool :=
  match o with Some s => nonempty s | None => false end.

(** [os.linesep] *)
Definition linesep : string := String "010"%char EmptyString.

(** [raw.replace(linesep, r"\n")] *)
Fixpoint replace_linesep (s : string) : string :=
  match s with
  | EmptyString => EmptyString
  | String c rest =>
      if bool_decide (c = "010"%char) then "\n" +:+ replace_linesep rest
      else String c (replace_linesep rest)
  end.

(** [sep.join(parts)] *)
Fixpoint str_join (sep : string) (parts : list string) : string :=
  match parts with
  | [] => ""
  | [s] => s
  | s :: rest => s +:+ sep +:+ str_join sep rest
  end.

(** [s.partition("/")[0]] *)
Fixpoint before_slash (s : string) : string :=
  match s with
  | EmptyString => EmptyString
  | String c rest =>
      if is_sep c then EmptyString else String c (before_slash rest)
  end.

Fixpoint insert_sorted {A : Type} (key : A → string) (x : A) (l : list A)
  : list A :=
  match l with
  | [] => [x]
  | y :: l' =>
      if String.leb (key x) (key y) then x :: y :: l'
      else y :: insert_sorted key x l'
  end.

(** [sorted(l, key=key)]: stable, ascending on the keys. *)
Definition sorted {A : Type} (key : A → string) (l : list A) : list A :=
  foldr (insert_sorted key) [] l.

(** A [dict] keeps the order in which its keys were first inserted;
    [d[k] = v] overwrites in place or appends. *)
Fixpoint dict_set (d : list (Path * Path)) (k v : Path)
  : list (Path * Path) :=
  match d with
  | [] => [(k, v)]
  | (k', v') :: d' =>
      if decide (k' = k) then (k, v) :: d' else (k', v') :: dict_set d' k v
  end.

(** [a ^ b] on sets. *)
Definition sym_diff (a b : gset Path) : gset Path := (a ∖ b) ∪ (b ∖ a).

(** ** What the handlers take from the rest of the program

    Library functions that depend on the platform or the locale, and the
    parts of the repository the handlers call that decide nothing here. *)
Class Collaborators : Type := {
  (** [localization.LANG(key, **kwargs)] *)
  LANG : string → list (string * string) → string;
  (** [os.path.relpath(path, start=start)] *)
  relpath : Path → Path → string;
  (** [locale.strxfrm] *)
  strxfrm : string → string;
  (** the extension of [os.path.splitext(name)] *)
  splitext_ext : string → string;
  (** the type of [mimetypes.guess_type(name, strict=False)] *)
  guess_type : string → option string;
  (** [state.index(state, row)]: the node displayed on a row *)
  state_index : State → Z → option Node;
  (** the visible paths of a tree in display order, from which the
      reducer numbers the rows *)
  visible_paths :
    Settings → Node → gset Path → option FilterPattern → bool → list Path;
}.

(** ** The reducer ([chadtree/state.py]) *)

(** The keyword arguments of a call of [forward]: a field that is not
    listed is not supplied.  [current] and [filter_pattern] can be
    supplied as [None]. *)
Inductive Kwarg : Type :=
| kw_root (root : Node)
| kw_index (index : gset Path)
| kw_selection (selection : gset Path)
| kw_filter_pattern (filter_pattern : option FilterPattern)
| kw_show_hidden (show_hidden : bool)
| kw_follow (follow : bool)
| kw_enable_vc (enable_vc : bool)
| kw_vc (vc : VCStatus)
| kw_width (width : Z)
| kw_current (current : option Path)
| kw_qf (qf : QuickFix)
| kw_paths (paths : gset Path).

Fixpoint kw_get {A : Type} (pick : Kwarg → option A) (kws : list Kwarg)
  : option A :=
  match kws with
  | [] => None
  | kw :: rest =>
      match pick kw with
      | Some a => Some a
      | None => kw_get pick rest
      end
  end.

Definition pick_root kw := match kw with kw_root x => Some x | _ => None end.
Definition pick_index kw := match kw with kw_index x => Some x | _ => None end.
Definition pick_selection kw :=
  match kw with kw_selection x => Some x | _ => None end.
Definition pick_filter_pattern kw :=
  match kw with kw_filter_pattern x => Some x | _ => None end.
Definition pick_show_hidden kw :=
  match kw with kw_show_hidden x => Some x | _ => None end.
Definition pick_follow kw :=
  match kw with kw_follow x => Some x | _ => None end.
Definition pick_enable_vc kw :=
  match kw with kw_enable_vc x => Some x | _ => None end.
Definition pick_vc kw := match kw with kw_vc x => Some x | _ => None end.
Definition pick_width kw := match kw with kw_width x => Some x | _ => None end.
Definition pick_current kw :=
  match kw with kw_current x => Some x | _ => None end.
Definition pick_qf kw := match kw with kw_qf x => Some x | _ => None end.
Definition pick_paths kw := match kw with kw_paths x => Some x | _ => None end.

Definition supplied {A : Type} (o : option A) : bool :=
  match o with Some _ => true | None => false end.

(** Rows are numbered from 0 in display order. *)
Definition number_rows (visible : list Path) : gmap Path Z :=
  list_to_map (zip visible (seqZ 0 (Z.of_nat (length visible)))).

(** A state with another width and nothing else changed. *)
Definition set_width (state : State) (width : Z) : State :=
  {| State.root := State.root state;
     State.index := State.index state;
     State.selection := State.selection state;
     State.filter_pattern := State.filter_pattern state;
     State.show_hidden := State.show_hidden state;
     State.follow := State.follow state;
     State.enable_vc := State.enable_vc state;
     State.vc := State.vc state;
     State.width := width;
     State.current := State.current state;
     State.paths_lookup := State.paths_lookup state;
     State.qf := State.qf state |}.

Section Handlers.

Context `{Collaborators}.

(** Modelled from the spec: [forward] of [chadtree/state.py], which is not
    among the sources.  "Fields not supplied retain their previous value",
    where [current] (and likewise [filter_pattern], which the handlers
    clear by passing [None]) tells "not supplied" from "supplied as
    [None]".  After the merge: "(a) if root, index, filter_pattern, or
    show_hidden changed, invoke the Cartographer to rebuild the subtree
    rooted at any path present in the paths hint (or the whole root if
    unspecified) and recompute paths_lookup by flattening the visible tree
    in display order; (b) if filter_pattern became non-empty, force
    selection to empty; (c) paths_lookup assigns each visible path exactly
    one increasing row index starting at 0".  A field counts as changed
    when the call supplies it. *)
Definition forward (state : State) (settings : Settings) (kws : list Kwarg)
  : Prog State :=
  let new_index := default (State.index state) (kw_get pick_index kws) in
  let new_filter_pattern :=
    default (State.filter_pattern state) (kw_get pick_filter_pattern kws) in
  let new_show_hidden :=
    default (State.show_hidden state) (kw_get pick_show_hidden kws) in
  let became_non_empty :=
    match kw_get pick_filter_pattern kws with
    | Some (Some _) => true
    | _ => false
    end in
  let new_selection :=
    if became_non_empty then ∅
    else default (State.selection state) (kw_get pick_selection kws) in
  let changed :=
    supplied (kw_get pick_root kws) || supplied (kw_get pick_index kws)
    || supplied (kw_get pick_filter_pattern kws)
    || supplied (kw_get pick_show_hidden kws) in
  let finish (new_root : Node) (new_paths_lookup : gmap Path Z) : State :=
    {| State.root := new_root;
       State.index := new_index;
       State.selection := new_selection;
       State.filter_pattern := new_filter_pattern;
       State.show_hidden := new_show_hidden;
       State.follow := default (State.follow state) (kw_get pick_follow kws);
       State.enable_vc :=
         default (State.enable_vc state) (kw_get pick_enable_vc kws);
       State.vc := default (State.vc state) (kw_get pick_vc kws);
       State.width := default (State.width state) (kw_get pick_width kws);
       State.current :=
         default (State.current state) (kw_get pick_current kws);
       State.paths_lookup := new_paths_lookup;
       State.qf := default (State.qf state) (kw_get pick_qf kws) |} in
  if changed then
    let* new_root :=
      call (update (default (State.root state) (kw_get pick_root kws))
                   new_index (kw_get pick_paths kws)) in
    Ret (finish new_root
           (number_rows (visible_paths settings new_root new_index
                           new_filter_pattern new_show_hidden)))
  else Ret (finish (State.root state) (State.paths_lookup state)).

(** Modelled from the spec: [is_dir] of [chadtree/state.py], which is not
    among the sources: the node is a folder. *)
Definition is_dir (node : Node) : bool :=
  bool_decide (folder ∈ Node.mode node).

(** ** The handlers ([chadtree/transitions.py]) *)

Definition _index (state : State) : Prog (option Node) :=
  let* fm := call current_win_is_fm in
  if fm then
    let* pos := call win_get_cursor in
    let row := fst pos - 1 in
    Ret (state_index state row)
  else Ret None.

Definition _indices (state : State) (is_visual : bool) : Prog (list Node) :=
  if is_visual then
    let* marks := call buf_get_marks in
    let '(r1, r2) := marks in
    (* range(r1 - 1, r2) *)
    Ret (omap (state_index state) (seqZ (r1 - 1) (r2 - (r1 - 1))))
  else
    let* pos := call win_get_cursor in
    let row := fst pos - 1 in
    Ret (option_list (state_index state row)).

Definition _display_path (path : Path) (state : State) : Prog string :=
  let raw := relpath path (Node.path (State.root state)) in
  let name := replace_linesep raw in
  let* d := call (isdir path) in
  Ret (if d then name +:+ "/" else name).

Definition _current (state : State) (settings : Settings) (current : Path)
  : Prog (option Stage) :=
  if is_parent (Node.path (State.root state)) current then
    let paths : gset Path :=
      if State.follow state then list_to_set (ancestors current) else ∅ in
    let index := State.index state ∪ paths in
    let* new_state :=
      forward state settings
        [kw_index index; kw_paths paths; kw_current (Some current)] in
    Ret (Some (new_stage new_state))
  else Ret None.

(** Follow buffer *)
Definition a_follow (state : State) (settings : Settings)
  : Prog (option Stage) :=
  let* current := call find_current_buffer_name in
  if nonempty current then _current state settings current
  else Ret None.

Definition _resize (state : State) (settings : Settings)
    (direction : Z → Z → Z) : Prog Stage :=
  let width := Z.max (direction (State.width state) 10) 1 in
  let* new_state := forward state settings [kw_width width] in
  let* _ := call (resize_fm_windows (State.width new_state)) in
  Ret (new_stage new_state).

(** Bigger sidebar *)
Definition c_bigger (state : State) (settings : Settings) : Prog Stage :=
  _resize state settings Z.add.

(** Smaller sidebar *)
Definition c_smaller (state : State) (settings : Settings) : Prog Stage :=
  _resize state settings Z.sub.

Definition ask_yesno (question : string) : Prog bool :=
  let* resp :=
    call (confirm question (LANG "ask_yesno" [("linesep", linesep)]) 2) in
  Ret (bool_decide (resp = 1)).

Definition _open_file (state : State) (settings : Settings) (path : Path)
    (click_type : ClickType) : Prog (option Stage) :=
  let name := basename path in
  let ext := splitext_ext name in
  let mime := guess_type name in
  let m_type := before_slash (default "" mime) in
  let* ans :=
    if bool_decide (m_type ∈ Settings.mime_warn settings)
       && negb (bool_decide (ext ∈ Settings.mime_ignore_exts settings))
    then
      ask_yesno
        (LANG "mime_warn" [("name", name); ("mime", default "None" mime)])
    else Ret true in
  if ans : bool then
    let* new_state := forward state settings [kw_current (Some path)] in
    let* _ := call (show_file new_state settings click_type) in
    Ret (Some (new_stage new_state))
  else Ret None.

Definition _click (state : State) (settings : Settings)
    (click_type : ClickType) : Prog (option Stage) :=
  let* node := _index state in
  match node with
  | Some node =>
      if bool_decide (orphan_link ∈ Node.mode node) then
        let name := Node.name node in
        let* _ := call (write (LANG "dead_link" [("name", name)]) true) in
        Ret None
      else if bool_decide (folder ∈ Node.mode node) then
        if supplied (State.filter_pattern state) then
          let* _ := call (write (LANG "filter_click" []) false) in
          Ret None
        else
          let paths : gset Path := {[Node.path node]} in
          let index := sym_diff (State.index state) paths in
          let* new_state :=
            forward state settings [kw_index index; kw_paths paths] in
          Ret (Some (new_stage new_state))
      else
        let* nxt := _open_file state settings (Node.path node) click_type in
        Ret nxt
  | None => Ret None
  end.

(** Folders -> toggle, File -> open *)
Definition c_primary (state : State) (settings : Settings)
  : Prog (option Stage) := _click state settings primary.

(** Folders -> toggle, File -> preview *)
Definition c_secondary (state : State) (settings : Settings)
  : Prog (option Stage) := _click state settings secondary.

(** Folders -> toggle, File -> open in new tab *)
Definition c_tertiary (state : State) (settings : Settings)
  : Prog (option Stage) := _click state settings tertiary.

(** Folders -> toggle, File -> open in vertical split *)
Definition c_v_split (state : State) (settings : Settings)
  : Prog (option Stage) := _click state settings v_split.

(** Folders -> toggle, File -> open in horizontal split *)
Definition c_h_split (state : State) (settings : Settings)
  : Prog (option Stage) := _click state settings h_split.

(** Collapse folder *)
Definition c_collapse (state : State) (settings : Settings)
  : Prog (option Stage) :=
  let* node := _index state in
  match node with
  | Some node =>
      let path :=
        if bool_decide (folder ∈ Node.mode node) then Node.path node
        else dirname (Node.path node) in
      if bool_decide (path ≠ Node.path (State.root state)) then
        let paths : gset Path :=
          filter (λ i, i = path ∨ is_parent path i = true)
                 (State.index state) in
        let index := State.index state ∖ paths in
        let* new_state :=
          forward state settings [kw_index index; kw_paths paths] in
        let row := default 0 (State.paths_lookup new_state !! path) in
        let* _ :=
          if bool_decide (row ≠ 0) then
            let* pos := call win_get_cursor in
            call (win_set_cursor (row + 1, snd pos))
          else Ret tt in
        Ret (Some (new_stage new_state))
      else Ret None
  | None => Ret None
  end.

Definition _vc_stat (enable : bool) : Prog VCStatus :=
  if enable then call status else Ret VCStatus.empty.

(** Redraw buffers.  The two overlay queries that the source gathers are
    made one after the other. *)
Definition _refresh (state : State) (settings : Settings) (write_out : bool)
  : Prog Stage :=
  let* _ :=
    if write_out then call (write (LANG "hourglass" []) false)
    else Ret tt in
  let* current := call find_current_buffer_name in
  let cwd := Node.path (State.root state) in
  let paths : gset Path := {[cwd]} in
  let new_current := if is_parent cwd current then Some current else None in
  let* existing :=
    filter_by (λ i, call (path_exists i)) (elements (State.index state)) in
  let index : gset Path := list_to_set existing ∪ paths in
  let* selection :=
    if supplied (State.filter_pattern state) then Ret (∅ : gset Path)
    else
      let* selected :=
        filter_by (λ s, call (path_exists s))
                  (elements (State.selection state)) in
      Ret (list_to_set selected) in
  let current_paths : gset Path :=
    if State.follow state then list_to_set (ancestors current) else ∅ in
  let new_index := if truthy new_current then index else index ∪ current_paths in
  let* qf := call quickfix in
  let* vc := _vc_stat (State.enable_vc state) in
  let* new_state :=
    forward state settings
      ([kw_index new_index; kw_selection selection; kw_qf qf; kw_vc vc;
        kw_paths paths]
       ++ (if truthy new_current then [kw_current new_current] else [])) in
  let* _ :=
    if write_out then call (write (LANG "ok_sym" []) false) else Ret tt in
  Ret (new_stage new_state).

Definition c_refresh (state : State) (settings : Settings) : Prog Stage :=
  _refresh state settings true.

(** [state.filter_pattern.pattern if state.filter_pattern else ""] *)
Definition current_pattern (state : State) : string :=
  match State.filter_pattern state with
  | Some fp => FilterPattern.pattern fp
  | None => ""
  end.

(** Update filter *)
Definition c_new_filter (state : State) (settings : Settings) : Prog Stage :=
  let pattern := current_pattern state in
  let* pattern := call (input (LANG "new_filter" []) pattern) in
  let filter_pattern :=
    match pattern with
    | Some p => if nonempty p then Some (FilterPattern.mk p) else None
    | None => None
    end in
  let* new_state :=
    forward state settings
      [kw_selection ∅; kw_filter_pattern filter_pattern] in
  Ret (new_stage new_state).

(** new file / folder *)
Definition c_new (state : State) (settings : Settings)
  : Prog (option Stage) :=
  let* cursor := _index state in
  let node := default (State.root state) cursor in
  let parent :=
    if is_dir node then Node.path node else dirname (Node.path node) in
  let* child := call (input (LANG "pencil" []) "") in
  match child with
  | Some child =>
      if nonempty child then
        let path := join parent child in
        let* taken := call (path_exists path) in
        if taken : bool then
          let* _ :=
            call (write (LANG "already_exists" [("name", path)]) true) in
          Ret (Some (new_stage state))
        else
          let* raised := call (new path) in
          match raised with
          | Some e =>
              let* _ := call (write e true) in
              let* stage := _refresh state settings false in
              Ret (Some stage)
          | None =>
              let paths : gset Path := list_to_set (ancestors path) in
              let index := State.index state ∪ paths in
              let* new_state :=
                forward state settings [kw_index index; kw_paths paths] in
              let* nxt := _open_file new_state settings path secondary in
              Ret nxt
          end
      else Ret None
  | None => Ret None
  end.

(** rename file / folder *)
Definition c_rename (state : State) (settings : Settings)
  : Prog (option Stage) :=
  let* node := _index state in
  match node with
  | Some node =>
      let prev_name := Node.path node in
      let parent := Node.path (State.root state) in
      let rel_path := relpath prev_name parent in
      let* child := call (input (LANG "pencil" []) rel_path) in
      match child with
      | Some child =>
          if nonempty child then
            let new_name := join parent child in
            let new_parent := dirname new_name in
            let* taken := call (path_exists new_name) in
            if taken : bool then
              let* _ :=
                call (write (LANG "already_exists" [("name", new_name)])
                            true) in
              Ret (Some (new_stage state))
            else
              let* raised := call (rename prev_name new_name) in
              match raised with
              | Some e =>
                  let* _ := call (write e true) in
                  let* stage := _refresh state settings false in
                  Ret (Some stage)
              | None =>
                  let paths : gset Path :=
                    {[parent; new_parent]}
                    ∪ list_to_set (ancestors new_parent) in
                  let index := State.index state ∪ paths in
                  let* new_state :=
                    forward state settings
                      [kw_index index; kw_paths paths] in
                  let* _ := call (kill_buffers {[prev_name]}) in
                  Ret (Some (new_stage new_state))
              end
          else Ret None
      | None => Ret None
      end
  | None => Ret None
  end.

(** Clear selected *)
Definition c_clear_selection (state : State) (settings : Settings)
  : Prog Stage :=
  let* new_state := forward state settings [kw_selection ∅] in
  Ret (new_stage new_state).

(** Clear filter *)
Definition c_clear_filter (state : State) (settings : Settings)
  : Prog Stage :=
  let* new_state := forward state settings [kw_filter_pattern None] in
  Ret (new_stage new_state).

(** Jump to active file *)
Definition c_jump_to_current (state : State) (settings : Settings)
  : Prog (option Stage) :=
  match State.current state with
  | Some current =>
      if nonempty current then
        let* stage := _current state settings current in
        match stage with
        | Some stage =>
            Ret (Some {| Stage.state := Stage.state stage;
                         Stage.focus := Some current |})
        | None => Ret None
        end
      else Ret None
  | None => Ret None
  end.

(** Folder / File -> select *)
Definition c_select (state : State) (settings : Settings) (is_visual : bool)
  : Prog (option Stage) :=
  let* nodes := _indices state is_visual in
  if is_visual then
    let selection :=
      sym_diff (State.selection state) (list_to_set (Node.path <$> nodes)) in
    let* new_state := forward state settings [kw_selection selection] in
    Ret (Some (new_stage new_state))
  else
    match nodes with
    | node :: _ =>
        let selection :=
          sym_diff (State.selection state) {[Node.path node]} in
        let* new_state := forward state settings [kw_selection selection] in
        Ret (Some (new_stage new_state))
    | [] => Ret None
    end.

(** The paths a delete works on: [state.selection or {cursor / range}]. *)
Definition delete_selection (state : State) (is_visual : bool)
  : Prog (gset Path) :=
  if bool_decide (State.selection state ≠ ∅) then Ret (State.selection state)
  else
    let* nodes := _indices state is_visual in
    Ret (list_to_set (Node.path <$> nodes)).

(** The entries of the confirmation of a delete, before they are joined
    with [linesep]. *)
Definition delete_display_list (state : State) (unified : list Path)
  : Prog (list string) :=
  let* shown := traverse (λ path, _display_path path state) unified in
  Ret (sorted strxfrm shown).

(** A set is iterated in the order of its canonical enumeration. *)
Definition _delete (state : State) (settings : Settings) (is_visual : bool)
    (yeet : list Path → Eff (option Exn)) : Prog (option Stage) :=
  let* selection := delete_selection state is_visual in
  let unified := elements (unify_ancestors selection) in
  match unified with
  | _ :: _ =>
      let* display_list := delete_display_list state unified in
      let display_paths := str_join linesep display_list in
      let* ans :=
        ask_yesno (LANG "ask_trash" [("linesep", linesep);
                                     ("display_paths", display_paths)]) in
      if ans : bool then
        let* raised := call (yeet unified) in
        match raised with
        | Some e =>
            let* _ := call (write e true) in
            let* stage := _refresh state settings false in
            Ret (Some stage)
        | None =>
            let paths : gset Path := list_to_set (dirname <$> unified) in
            let* new_state :=
              forward state settings [kw_selection ∅; kw_paths paths] in
            let* _ := call (kill_buffers selection) in
            Ret (Some (new_stage new_state))
        end
      else Ret None
  | [] => Ret None
  end.

(** Delete selected *)
Definition c_delete (state : State) (settings : Settings) (is_visual : bool)
  : Prog (option Stage) := _delete state settings is_visual remove.

(** Delete selected *)
Definition c_trash (state : State) (settings : Settings) (is_visual : bool)
  : Prog (option Stage) := _delete state settings is_visual trash.

Definition _find_dest (src : Path) (node : Node) : Path :=
  let name := basename src in
  let parent :=
    if is_dir node then Node.path node else dirname (Node.path node) in
  let dst := join parent name in
  dst.

(** [pre_op]: the destination of every source. *)
Definition pre_op (unified : list Path) (node : Node) : list (Path * Path) :=
  (λ src, (src, _find_dest src node)) <$> unified.

(** [p_pre]: the operations whose destination exists. *)
Definition p_pre (operations : list (Path * Path))
  : Prog (list (Path * Path)) :=
  filter_by (λ sd, call (path_exists (snd sd))) operations.

(** The loop over the colliding operations: one prompt each; the first
    empty answer leaves the handler ([None]). *)
Fixpoint ask_renames (pre_existing operations : list (Path * Path))
  : Prog (option (list (Path * Path))) :=
  match pre_existing with
  | [] => Ret (Some operations)
  | (source, dest) :: rest =>
      let* new_dest := call (input (LANG "path_exists_err" []) dest) in
      if truthy new_dest then
        ask_renames rest (dict_set operations source (default "" new_dest))
      else Ret None
  end.

Definition display_pair (state : State) (sd : Path * Path) : Prog string :=
  let* s := _display_path (fst sd) state in
  let* d := _display_path (snd sd) state in
  Ret (s +:+ " -> " +:+ d).

Definition _operation (state : State) (settings : Settings) (op_name : string)
    (action : list (Path * Path) → Eff (option Exn)) : Prog (option Stage) :=
  let* node := _index state in
  let selection := State.selection state in
  let unified := elements (unify_ancestors selection) in
  match unified, node with
  | _ :: _, Some node =>
      let operations := pre_op unified node in
      let* pre_existing := p_pre operations in
      let* resolved :=
        match pre_existing with
        | _ :: _ =>
            let* renamed := ask_renames pre_existing operations in
            match renamed with
            | Some operations =>
                let* pre_existing := p_pre operations in
                Ret (Some (operations, pre_existing))
            | None => Ret None
            end
        | [] => Ret (Some (operations, pre_existing))
        end in
      match resolved with
      | None => Ret None
      | Some (operations, (_ :: _) as pre_existing) =>
          let* shown :=
            traverse (display_pair state)
                     (sorted (λ t, strxfrm (fst t)) pre_existing) in
          let msg := str_join ", " shown in
          let* _ :=
            call (write ("⚠️  -- " +:+ op_name
                         +:+ ": path(s) already exist! :: " +:+ msg) true) in
          Ret None
      | Some (operations, []) =>
          let* shown :=
            traverse (display_pair state)
                     (sorted (λ t, strxfrm (fst t)) operations) in
          let msg := str_join linesep shown in
          let* ans := ask_yesno (op_name +:+ linesep +:+ msg +:+ "?") in
          if ans : bool then
            let* raised := call (action operations) in
            match raised with
            | Some e =>
                let* _ := call (write e true) in
                let* stage := _refresh state settings false in
                Ret (Some stage)
            | None =>
                let paths : gset Path :=
                  list_to_set
                    (dirname <$> (operations.*1 ++ operations.*2)%list) in
                let index := State.index state ∪ paths in
                let* new_state :=
                  forward state settings
                    [kw_index index; kw_selection ∅; kw_paths paths] in
                let* _ := call (kill_buffers selection) in
                Ret (Some (new_stage new_state))
            end
          else Ret None
      end
  | _, _ =>
      let* _ := call (write (LANG "nothing_select" []) true) in
      Ret None
  end.

(** Cut selected *)
Definition c_cut (state : State) (settings : Settings)
  : Prog (option Stage) :=
  _operation state settings (LANG "cut" []) cut.

(** Copy selected *)
Definition c_copy (state : State) (settings : Settings)
  : Prog (option Stage) :=
  _operation state settings (LANG "copy" []) copy.

End Handlers.

(** [await write(nvim, e, error=True); return await _refresh(nvim,
    state=state, settings=settings)] *)
Definition report_and_refresh `{Collaborators} (state : State)
    (settings : Settings) (e : Exn) : Prog (option Stage) :=
  let* _ := call (write e true) in
  let* stage := _refresh state settings false in
  Ret (Some stage).

(** The handlers that change the file system. *)
Inductive mutating_handler `{Collaborators} (state : State)
    (settings : Settings) : Prog (option Stage) → Prop :=
| mutating_delete is_visual :
    mutating_handler state settings (c_delete state settings is_visual)
| mutating_trash is_visual :
    mutating_handler state settings (c_trash state settings is_visual)
| mutating_rename : mutating_handler state settings (c_rename state settings)
| mutating_new : mutating_handler state settings (c_new state settings)
| mutating_cut : mutating_handler state settings (c_cut state settings)
| mutating_copy : mutating_handler state settings (c_copy state settings).

(** ** Observing a run *)

Definition trace_of {A : Type} (o : Oracle) (p : Prog A) (tr : list Event)
  : list Event := (run o p tr).1.

Definition result_of {A : Type} (o : Oracle) (p : Prog A) (tr : list Event)
  : A := (run o p tr).2.

(** The events a handler adds to the history. *)
Definition fresh {A : Type} (o : Oracle) (p : Prog A) (tr : list Event)
  : list Event := drop (length tr) (trace_of o p tr).

(** A handler none of whose calls is of a given kind. *)
Inductive free_of (bad : ∀ X : Type, Eff X → bool) {A : Type}
  : Prog A → Prop :=
| free_of_ret (a : A) : free_of bad (Ret a)
| free_of_vis {X : Type} (e : Eff X) (k : X → Prog A) :
    bad X e = false → (∀ x, free_of bad (k x)) → free_of bad (Vis e k).

(** No call is a side effect. *)
Definition quiet {A : Type} : Prog A → Prop := free_of (@side_effect).

(** No call changes the file system. *)
Definition calm {A : Type} : Prog A → Prop := free_of (@mutation).

(** A handler that continues as [recover e] wherever a call raised [e]. *)
Inductive recovers {A : Type} (recover : Exn → Prog A) : Prog A → Prop :=
| recovers_ret (a : A) : recovers recover (Ret a)
| recovers_vis {X : Type} (e : Eff X) (k : X → Prog A) :
    (∀ x exn, raised e x = Some exn → k x = recover exn) →
    (∀ x, raised e x = None → recovers recover (k x)) →
    recovers recover (Vis e k).

(** The events of a list that are side effects. *)
Definition side_effects (events : list Event) : list Event :=
  filter (λ ev, is_side_effect ev = true) events.

(** The text offered by an input prompt. *)
Definition prompted (ev : Event) : option string :=
  match ev with Ev (input _ text) _ => Some text | _ => None end.

(** An input prompt that was answered with nothing. *)
Definition declined (ev : Event) : bool :=
  match ev with Ev (input _ _) x => negb (truthy x) | _ => false end.

(** The operations handed to a cut or a copy. *)
Definition moved (ev : Event) : option (list (Path * Path)) :=
  match ev with
  | Ev (cut operations) _ | Ev (copy operations) _ => Some operations
  | _ => None
  end.

(** ** A concrete world, to run the handlers in *)

Module Demo.

(** What the editor, the user and the file system answer. *)
Record World : Type :=
  mk { fm_window : bool;               (* the sidebar has the focus *)
       cursor : Z * Z;                 (* 1-based row, column *)
       marks : Z * Z;                  (* rows of the visual range *)
       buffer_name : string;           (* the active buffer's file *)
       answer : Z;                     (* to every confirm *)
       inputs : list (option string);  (* to the input prompts, in order *)
       existing : gset Path;           (* the paths that exist *)
       directories : gset Path;        (* those that are directories *)
       failure : option Exn }.         (* what every mutation raises *)

Definition is_input (ev : Event) : bool :=
  match ev with Ev (input _ _) _ => true | _ => false end.

Definition inputs_so_far (tr : list Event) : nat :=
  length (filter (λ ev, is_input ev = true) tr).

Definition oracle (w : World) : Oracle :=
  λ X tr e,
    match e in Eff X return X with
    | current_win_is_fm => fm_window w
    | win_get_cursor => cursor w
    | win_set_cursor _ => tt
    | buf_get_marks => marks w
    | find_current_buffer_name => buffer_name w
    | write _ _ => tt
    | confirm _ _ _ => answer w
    | input _ _ => default None (inputs w !! inputs_so_far tr)
    | resize_fm_windows _ => tt
    | show_file _ _ _ => tt
    | kill_buffers _ => tt
    | path_exists p => bool_decide (p ∈ existing w)
    | isdir p => bool_decide (p ∈ directories w)
    | new _ | rename _ _ | remove _ | trash _ | cut _ | copy _ => failure w
    | update root _ _ => root
    | quickfix => QuickFix.mk ∅
    | status => VCStatus.empty
    end.

(** [p] without the leading [start/], when it has it. *)
Fixpoint strip_prefix (start p : string) : option string :=
  match start, p with
  | EmptyString, String c rest => if is_sep c then Some rest else None
  | String a start', String c rest =>
      if bool_decide (a = c) then strip_prefix start' rest else None
  | _, EmptyString => None
  end.

(** The rows of the sidebar show [rows], top down. *)
Definition collaborators (rows : list Node) : Collaborators :=
  {| LANG := λ key kwargs, key +:+ ":" +:+ str_join "," (kwargs.*2);
     relpath := λ p start, default p (strip_prefix start p);
     strxfrm := λ s, s;
     splitext_ext := λ _, "";
     guess_type := λ _, None;
     state_index :=
       λ _ row, if bool_decide (0 ≤ row) then rows !! Z.to_nat row else None;
     visible_paths := λ _ _ _ _ _, Node.path <$> rows |}.

Definition dir_node (p : Path) : Node :=
  {| Node.path := p; Node.name := basename p; Node.mode := {[folder]};
     Node.children := None |}.

Definition file_node (p : Path) : Node :=
  {| Node.path := p; Node.name := basename p; Node.mode := {[file]};
     Node.children := None |}.

Definition settings : Settings :=
  {| Settings.mime_warn := ∅; Settings.mime_ignore_exts := ∅ |}.

(** The state rooted at [/proj]. *)
Definition state (index selection : gset Path)
    (filter_pattern : option FilterPattern) : State :=
  {| State.root := dir_node "/proj";
     State.index := index;
     State.selection := selection;
     State.filter_pattern := filter_pattern;
     State.show_hidden := false;
     State.follow := true;
     State.enable_vc := false;
     State.vc := VCStatus.empty;
     State.width := 40;
     State.current := None;
     State.paths_lookup := ∅;
     State.qf := QuickFix.mk ∅ |}.

(** The sidebar shows [/proj], [/proj/src], [/proj/src/lib], [/proj/dst],
    [/proj/dir], [/proj/dir/file.txt] and [/proj/a.txt]. *)
Definition rows : list Node :=
  [dir_node "/proj"; dir_node "/proj/src"; dir_node "/proj/src/lib";
   dir_node "/proj/dst"; dir_node "/proj/dir";
   file_node "/proj/dir/file.txt"; file_node "/proj/a.txt"].

(** The cursor is on the row numbered [row] from 0; prompts are answered
    with [inputs], confirmations with [answer]. *)
Definition world (row answer : Z) (inputs : list (option string))
    (existing : gset Path) (failure : option Exn) : World :=
  {| fm_window := true;
     cursor := (row + 1, 0);
     marks := (row + 1, row + 1);
     buffer_name := "/proj/src/lib/x.py";
     answer := answer;
     inputs := inputs;
     existing := existing;
     directories :=
       {["/proj"; "/proj/src"; "/proj/src/lib"; "/proj/dst"; "/proj/dir"]};
     failure := failure |}.

End Demo.

(** ** More of [chadtree/transitions.py] *)

Module Buffer.
(** A buffer of the editor, as far as the handlers look at it. *)
Record t : Type := mk { number : Z }.
End Buffer.
Abbreviation Buffer := Buffer.t.

(** [find_buffer], given the buffers that [nvim.api.list_bufs()] lists. *)
Fixpoint find_buffer (buffers : list Buffer) (bufnr : Z) : option Buffer :=
  match buffers with
  | [] => None
  | buffer :: rest =>
      if bool_decide (Buffer.number buffer = bufnr) then Some buffer
      else find_buffer rest bufnr
  end.

(** [str(b)] of a [bool] *)
Definition str_bool (b : bool) : string := if b then "True" else "False".

Section MoreHandlers.

Context `{Collaborators}.

(** Update quickfix list *)
Definition a_quickfix (state : State) (settings : Settings) : Prog Stage :=
  let* qf := call quickfix in
  let* new_state := forward state settings [kw_qf qf] in
  Ret (new_stage new_state).

(** Toggle hidden *)
Definition c_hidden (state : State) (settings : Settings) : Prog Stage :=
  let* new_state :=
    forward state settings [kw_show_hidden (negb (State.show_hidden state))] in
  Ret (new_stage new_state).

Definition c_toggle_follow (state : State) (settings : Settings)
  : Prog Stage :=
  let* new_state :=
    forward state settings [kw_follow (negb (State.follow state))] in
  let* _ :=
    call (write (LANG "follow_mode_indi"
                   [("follow", str_bool (State.follow new_state))]) false) in
  Ret (new_stage new_state).

Definition c_toggle_vc (state : State) (settings : Settings) : Prog Stage :=
  let enable_vc := negb (State.enable_vc state) in
  let* vc := _vc_stat enable_vc in
  let* new_state :=
    forward state settings [kw_enable_vc enable_vc; kw_vc vc] in
  let* _ :=
    call (write (LANG "version_control_indi"
                   [("enable_vc", str_bool (State.enable_vc new_state))])
                false) in
  Ret (new_stage new_state).

(** The part of [_operation] between the first look at the destinations
    and the confirmation: with collisions, the prompts and a second look;
    [None] when a prompt was left empty. *)
Definition resolve_collisions (pre_existing operations : list (Path * Path))
  : Prog (option (list (Path * Path) * list (Path * Path))) :=
  match pre_existing with
  | _ :: _ =>
      let* renamed := ask_renames pre_existing operations in
      match renamed with
      | Some operations =>
          let* pre_existing := p_pre operations in
          Ret (Some (operations, pre_existing))
      | None => Ret None
      end
  | [] => Ret (Some (operations, pre_existing))
  end.

End MoreHandlers.

(** ** More observations *)

(** A confirmation that was answered with 1 ("yes"). *)
Definition affirmed (ev : Event) : bool :=
  match ev with Ev (confirm _ _ _) x => bool_decide (x = 1) | _ => false end.

(** The events of a list that change the file system. *)
Definition mutations (events : list Event) : list Event :=
  filter (λ ev, is_mutation ev = true) events.

(** The destinations a mutation writes to. *)
Definition targets (ev : Event) : list Path :=
  match ev with
  | Ev (new p) _ => [p]
  | Ev (rename _ dst) _ => [dst]
  | Ev (cut operations) _ | Ev (copy operations) _ => operations.*2
  | _ => []
  end.

(** In [events], which follow [history], every call that changes the
    file system writes to paths only that were answered not to exist
    before it. *)
Definition vetted_after (history events : list Event) : Prop :=
  ∀ pre ev post,
    events = pre ++ ev :: post →
    is_mutation ev = true →
    ∀ d, d ∈ targets ev → Ev (path_exists d) false ∈ history ++ pre.

Definition vetted (events : list Event) : Prop := vetted_after [] events.

(** A handler that changes the file system at most once. *)
Inductive mutates_once {A : Type} : Prog A → Prop :=
| mutates_once_ret (a : A) : mutates_once (Ret a)
| mutates_once_vis {X : Type} (e : Eff X) (k : X → Prog A) :
    (mutation e = false → ∀ x, mutates_once (k x)) →
    (mutation e = true → ∀ x, calm (k x)) →
    mutates_once (Vis e k).

(** A handler that changes the file system only after a confirmation was
    answered with 1. *)
Inductive asks_first {A : Type} : Prog A → Prop :=
| asks_first_ret (a : A) : asks_first (Ret a)
| asks_first_confirm question choices default (k : Z → Prog A) :
    (∀ x, x ≠ 1 → asks_first (k x)) →
    asks_first (Vis (confirm question choices default) k)
| asks_first_vis {X : Type} (e : Eff X) (k : X → Prog A) :
    mutation e = false → (∀ x, asks_first (k x)) → asks_first (Vis e k).

(** No separator in a string. *)
Fixpoint sep_free (s : string) : bool :=
  match s with
  | EmptyString => true
  | String c rest => negb (is_sep c) && sep_free rest
  end.

(** * Properties *)

(** ** Sanity checks of the path functions *)

Example dirname_file : dirname "/proj/src/a.txt" = "/proj/src".
Proof. reflexivity. Qed.
Example dirname_top : dirname "/proj" = "/".
Proof. reflexivity. Qed.
Example dirname_root : dirname "/" = "/".
Proof. reflexivity. Qed.
Example dirname_slashes : dirname "//proj" = "//".
Proof. reflexivity. Qed.
Example dirname_trailing : dirname "/proj/src/" = "/proj/src".
Proof. reflexivity. Qed.
Example dirname_relative : dirname "a.txt" = "".
Proof. reflexivity. Qed.
Example basename_file : basename "/proj/a.txt" = "a.txt".
Proof. reflexivity. Qed.
Example basename_trailing : basename "/proj/dir/" = "".
Proof. reflexivity. Qed.
Example join_plain : join "/proj/dst" "a.txt" = "/proj/dst/a.txt".
Proof. reflexivity. Qed.
Example join_root : join "/" "a.txt" = "/a.txt".
Proof. reflexivity. Qed.
Example join_absolute : join "/proj" "/etc/passwd" = "/etc/passwd".
Proof. reflexivity. Qed.
Example parents_file :
  parents "/proj/src/a.txt" = ["/proj/src"; "/proj"; "/"].
Proof. reflexivity. Qed.
Example parents_relative : parents "a/b/c" = ["a/b"; "a"].
Proof. reflexivity. Qed.
Example ancestors_file :
  ancestors "/proj/src/a.txt" = ["/proj/src"; "/proj"].
Proof. reflexivity. Qed.
Example is_parent_below : is_parent "/proj" "/proj/src/a.txt" = true.
Proof. reflexivity. Qed.
Example is_parent_sibling : is_parent "/proj/src" "/proj/srcs" = false.
Proof. reflexivity. Qed.
Example unify_example :
  unify_ancestors {["/a"; "/a/b"; "/c"]} = {["/a"; "/c"]}.
Proof. reflexivity. Qed.

(** ** Running handlers *)

Lemma run_bind {A B : Type} (o : Oracle) (p : Prog A) (f : A → Prog B) tr :
  run o (bind p f) tr = run o (f (result_of o p tr)) (trace_of o p tr).
Proof.
  revert tr. induction p as [a | X e k IH]; intros tr; simpl; [done |].
  apply IH.
Qed.

Lemma run_call {X : Type} (o : Oracle) (e : Eff X) tr :
  run o (call e) tr = (tr ++ [Ev e (o X tr e)], o X tr e).
Proof. reflexivity. Qed.

Lemma run_suffix {A : Type} (o : Oracle) (p : Prog A) tr :
  ∃ suffix, (run o p tr).1 = tr ++ suffix.
Proof.
  revert tr. induction p as [a | X e k IH]; intros tr; simpl.
  - exists []. by rewrite app_nil_r.
  - destruct (IH (o X tr e) (tr ++ [Ev e (o X tr e)])) as [suffix E].
    exists (Ev e (o X tr e) :: suffix). by rewrite E, <- (assoc_L (++)).
Qed.

Lemma run_extends {A : Type} (o : Oracle) (p : Prog A) tr :
  trace_of o p tr = tr ++ fresh o p tr.
Proof.
  unfold fresh, trace_of. destruct (run_suffix o p tr) as [suffix E].
  by rewrite E, drop_app_length.
Qed.

Lemma fresh_ret {A : Type} (o : Oracle) (a : A) tr : fresh o (Ret a) tr = [].
Proof. unfold fresh, trace_of. simpl. apply drop_all. Qed.

Lemma fresh_vis {A X : Type} (o : Oracle) (e : Eff X) (k : X → Prog A) tr :
  fresh o (Vis e k) tr
  = Ev e (o X tr e) :: fresh o (k (o X tr e)) (tr ++ [Ev e (o X tr e)]).
Proof.
  unfold fresh, trace_of. simpl.
  destruct (run_suffix o (k (o X tr e)) (tr ++ [Ev e (o X tr e)]))
    as [suffix E].
  rewrite E, drop_app_length, <- (assoc_L (++)), drop_app_length. done.
Qed.

Lemma fresh_bind {A B : Type} (o : Oracle) (p : Prog A) (f : A → Prog B) tr :
  fresh o (bind p f) tr
  = fresh o p tr ++ fresh o (f (result_of o p tr)) (trace_of o p tr).
Proof.
  pose proof (run_extends o (f (result_of o p tr)) (trace_of o p tr)) as E.
  unfold fresh at 1. unfold trace_of at 1. rewrite run_bind.
  unfold trace_of in E at 1. rewrite E.
  generalize (fresh o (f (result_of o p tr)) (trace_of o p tr)).
  intros suffix. rewrite (run_extends o p tr), <- (assoc_L (++)).
  apply drop_app_length.
Qed.

Lemma free_of_bind bad {A B : Type} (p : Prog A) (f : A → Prog B) :
  free_of bad p → (∀ a, free_of bad (f a)) → free_of bad (bind p f).
Proof.
  intros Hp Hf. induction Hp as [a | X e k He Hk IH]; simpl; [apply Hf |].
  by constructor.
Qed.

Lemma free_of_call bad {X : Type} (e : Eff X) :
  bad X e = false → free_of bad (call e).
Proof. intros He. constructor; [done | intros x; constructor]. Qed.

Lemma free_of_weaken (bad1 bad2 : ∀ X : Type, Eff X → bool) {A : Type}
    (p : Prog A) :
  (∀ X (e : Eff X), bad1 X e = false → bad2 X e = false) →
  free_of bad1 p → free_of bad2 p.
Proof.
  intros Hbad Hp. induction Hp as [a | X e k He Hk IH]; constructor; auto.
Qed.

Lemma quiet_bind {A B : Type} (p : Prog A) (f : A → Prog B) :
  quiet p → (∀ a, quiet (f a)) → quiet (bind p f).
Proof. apply free_of_bind. Qed.

Lemma quiet_call {X : Type} (e : Eff X) : side_effect e = false → quiet (call e).
Proof. apply (free_of_call (@side_effect)). Qed.

Lemma calm_bind {A B : Type} (p : Prog A) (f : A → Prog B) :
  calm p → (∀ a, calm (f a)) → calm (bind p f).
Proof. apply free_of_bind. Qed.

Lemma calm_call {X : Type} (e : Eff X) : mutation e = false → calm (call e).
Proof. apply (free_of_call (@mutation)). Qed.

Lemma quiet_calm {A : Type} (p : Prog A) : quiet p → calm p.
Proof. apply free_of_weaken. by intros X []. Qed.

Lemma quiet_fresh {A : Type} (o : Oracle) (p : Prog A) tr :
  quiet p → side_effects (fresh o p tr) = [].
Proof.
  intros Hp. revert tr.
  induction Hp as [a | X e k He Hk IH]; intros tr.
  - by rewrite fresh_ret.
  - rewrite fresh_vis. unfold side_effects.
    rewrite filter_cons_False; [apply IH |].
    simpl. by rewrite He.
Qed.

Lemma side_effects_app (l1 l2 : list Event) :
  side_effects (l1 ++ l2) = side_effects l1 ++ side_effects l2.
Proof. apply filter_app. Qed.


(** ** [dirname] shortens *)

Lemma string_app_cons (c : ascii) (a b : string) :
  String c a +:+ b = String c (a +:+ b).
Proof. reflexivity. Qed.

Lemma string_app_length (a b : string) :
  String.length (a +:+ b) = (String.length a + String.length b)%nat.
Proof.
  induction a as [| c a IH]; [done |].
  rewrite string_app_cons. simpl. by rewrite IH.
Qed.

Lemma string_app_empty_r (a : string) : a +:+ "" = a.
Proof.
  induction a as [| c a IH]; [done |]. by rewrite string_app_cons, IH.
Qed.

Lemma string_app_assoc (a b c : string) : (a +:+ b) +:+ c = a +:+ (b +:+ c).
Proof.
  induction a as [| x a IH]; [done |]. by rewrite !string_app_cons, IH.
Qed.

Lemma split_last_app (p : string) :
  p = (split_last p).1 +:+ (split_last p).2.
Proof.
  induction p as [| c p IH]; [done |]. simpl.
  destruct (split_last p) as [[| c' h] t]; simpl in *.
  - destruct (is_sep c); simpl; by rewrite ?string_app_cons, IH.
  - by rewrite string_app_cons, <- IH.
Qed.

Lemma rstrip_sep_prefix (s : string) : ∃ rest, s = rstrip_sep s +:+ rest.
Proof.
  induction s as [| c s [rest IH]]; [by exists "" |]. simpl.
  destruct (rstrip_sep s) as [| c' r].
  - destruct (is_sep c); [by exists (String c s) |]. by exists s.
  - exists rest. by rewrite string_app_cons, <- IH.
Qed.

Lemma dirname_prefix (p : string) : ∃ rest, p = dirname p +:+ rest.
Proof.
  unfold dirname.
  destruct (rstrip_sep_prefix (split_last p).1) as [rest Hrest].
  destruct (rstrip_sep (split_last p).1) as [| c r] eqn:E.
  - exists (split_last p).2. apply split_last_app.
  - exists (rest +:+ (split_last p).2).
    rewrite <- string_app_assoc, <- Hrest. apply split_last_app.
Qed.

Lemma dirname_shorter (p : string) :
  dirname p ≠ p → (String.length (dirname p) < String.length p)%nat.
Proof.
  intros Hne. destruct (dirname_prefix p) as [[| c rest] E].
  - rewrite string_app_empty_r in E. congruence.
  - rewrite E at 2. rewrite string_app_length. simpl. lia.
Qed.

(** ** The chain of parents *)

Lemma lineage_fuel (n m : nat) (p : Path) :
  (String.length p ≤ n)%nat → (String.length p ≤ m)%nat →
  lineage n p = lineage m p.
Proof.
  revert m p. induction n as [| n IH]; intros m p Hn Hm.
  - destruct p; [| simpl in Hn; lia].
    destruct m; [done |]. cbn [lineage].
    destruct (decide _) as [| Hd]; [done | by exfalso; apply Hd; left].
  - destruct m as [| m].
    + destruct p; [| simpl in Hm; lia].
      cbn [lineage].
      destruct (decide _) as [| Hd]; [done | by exfalso; apply Hd; left].
    + cbn [lineage].
      destruct (decide (dirname p = p ∨ dirname p = "")) as [| Hd]; [done |].
      f_equal. assert (dirname p ≠ p) as Hne by tauto.
      apply dirname_shorter in Hne. apply IH; lia.
Qed.

Lemma parents_unfold (p : Path) :
  parents p
  = if decide (dirname p = p ∨ dirname p = "") then []
    else dirname p :: parents (dirname p).
Proof.
  unfold parents. destruct p as [| c p]; [reflexivity |].
  change (String.length (String c p)) with (S (String.length p)).
  cbn [lineage]. destruct (decide _) as [| Hd]; [done |].
  f_equal. assert (dirname (String c p) ≠ String c p) as Hne by tauto.
  apply dirname_shorter in Hne. simpl in Hne. apply lineage_fuel; lia.
Qed.

Lemma parents_shorter (a p : Path) :
  a ∈ parents p → (String.length a < String.length p)%nat.
Proof.
  remember (String.length p) as n eqn:Hn. revert p Hn a.
  induction n as [n IH] using lt_wf_ind. intros p -> a.
  rewrite parents_unfold. destruct (decide _) as [| Hd]; [by intros ?%elem_of_nil |].
  assert (dirname p ≠ p) as Hne by tauto. apply dirname_shorter in Hne.
  intros [-> | Ha]%elem_of_cons; [done |].
  specialize (IH _ Hne (dirname p) eq_refl a Ha). lia.
Qed.

Lemma parents_trans (a b c : Path) :
  a ∈ parents b → b ∈ parents c → a ∈ parents c.
Proof.
  remember (String.length c) as n eqn:Hn. revert c Hn a b.
  induction n as [n IH] using lt_wf_ind. intros c -> a b Hab.
  rewrite (parents_unfold c).
  destruct (decide _) as [| Hd]; [by intros ?%elem_of_nil |].
  assert (dirname c ≠ c) as Hne by tauto. apply dirname_shorter in Hne.
  intros [-> | Hb]%elem_of_cons.
  - by right.
  - right. by apply (IH _ Hne (dirname c) eq_refl a b).
Qed.

Lemma ancestor_of_irrefl (p : Path) : ¬ ancestor_of p p.
Proof. intros Hp%parents_shorter. lia. Qed.

Lemma elem_of_unify_ancestors (paths : gset Path) (p : Path) :
  p ∈ unify_ancestors paths
  ↔ p ∈ paths ∧ ∀ a, ancestor_of a p → a ∉ paths.
Proof.
  unfold unify_ancestors, ancestor_of.
  rewrite elem_of_filter, Forall_forall. tauto.
Qed.

(** Every path of the set is, or lies below, a path that is kept. *)
Lemma unify_ancestors_covers (paths : gset Path) (p : Path) :
  p ∈ paths →
  ∃ q, q ∈ unify_ancestors paths ∧ (q = p ∨ ancestor_of q p).
Proof.
  remember (String.length p) as n eqn:Hn. revert p Hn.
  induction n as [n IH] using lt_wf_ind. intros p -> Hp.
  destruct (decide (Forall (λ a, a ∉ paths) (parents p))) as [Hall | Hsome].
  - exists p. split; [| by left].
    apply elem_of_unify_ancestors. split; [done |].
    intros a Ha. by apply (proj1 (Forall_forall _ _) Hall).
  - apply not_Forall_Exists in Hsome; [| apply _].
    apply Exists_exists in Hsome as (a & Ha & Hin).
    apply dec_stable in Hin.
    destruct (IH _ (parents_shorter _ _ Ha) a eq_refl Hin) as (q & Hq & Hqa).
    exists q. split; [done |]. right.
    destruct Hqa as [-> | Hqa]; [done |].
    by apply (parents_trans q a p).
Qed.

(** C2: for every set of paths, [unify_ancestors] returns paths of the
    set no two of which are in the ancestor relation, and a path lies
    below (or: is, or lies below) a returned path exactly when it lies
    below (is, or lies below) a path of the set; [unify_ancestors
    {"/a", "/a/b", "/c"} = {"/a", "/c"}]. *)
Theorem unify_ancestors_antichain_and_cover (paths : gset Path) :
  unify_ancestors paths ⊆ paths
  ∧ (∀ p q, p ∈ unify_ancestors paths → q ∈ unify_ancestors paths →
            p ≠ q → ¬ ancestor_of p q)
  ∧ (∀ x, (∃ p, p ∈ unify_ancestors paths ∧ ancestor_of p x)
          ↔ (∃ p, p ∈ paths ∧ ancestor_of p x))
  ∧ (∀ x, (∃ p, p ∈ unify_ancestors paths ∧ (p = x ∨ ancestor_of p x))
          ↔ (∃ p, p ∈ paths ∧ (p = x ∨ ancestor_of p x)))
  ∧ unify_ancestors {["/a"; "/a/b"; "/c"]} = {["/a"; "/c"]}.
Proof.
  assert (unify_ancestors paths ⊆ paths) as Hsub.
  { intros p Hp. by apply elem_of_unify_ancestors in Hp as [? _]. }
  split; [done |]. split; [| split; [| split; [| reflexivity]]].
  - intros p q Hp Hq _ Hanc.
    apply elem_of_unify_ancestors in Hq as [_ Hq].
    apply (Hq p Hanc). by apply Hsub.
  - intros x. split.
    + intros (p & Hp & Hx). exists p. split; [by apply Hsub | done].
    + intros (p & Hp & Hx).
      destruct (unify_ancestors_covers paths p Hp) as (q & Hq & Hqp).
      exists q. split; [done |].
      destruct Hqp as [-> | Hqp]; [done |]. by apply (parents_trans q p x).
  - intros x. split.
    + intros (p & Hp & Hx). exists p. split; [by apply Hsub | done].
    + intros (p & Hp & Hx).
      destruct (unify_ancestors_covers paths p Hp) as (q & Hq & Hqp).
      exists q. split; [done |].
      destruct Hqp as [-> | Hqp]; [done |]. right.
      destruct Hx as [-> | Hx]; [done |]. by apply (parents_trans q p x).
Qed.

(** ** Exceptions of the file system *)

Lemma raised_calm {X : Type} (e : Eff X) (x : X) :
  mutation e = false → raised e x = None.
Proof. by destruct e. Qed.

Lemma calm_recovers {A : Type} (recover : Exn → Prog A) (p : Prog A) :
  calm p → recovers recover p.
Proof.
  intros Hp. induction Hp as [a | X e k He Hk IH]; constructor.
  - intros x exn Hx. by rewrite (raised_calm e x He) in Hx.
  - intros x _. apply IH.
Qed.

Lemma recovers_bind_calm {A B : Type} (recover : Exn → Prog B)
    (p : Prog A) (f : A → Prog B) :
  calm p → (∀ a, recovers recover (f a)) → recovers recover (bind p f).
Proof.
  intros Hp Hf. induction Hp as [a | X e k He Hk IH]; simpl; [apply Hf |].
  constructor.
  - intros x exn Hx. by rewrite (raised_calm e x He) in Hx.
  - intros x _. apply IH.
Qed.

(** In a run of such a handler, what follows the first call that raised
    is the run of [recover]. *)
Lemma recovers_run {A : Type} (recover : Exn → Prog A) (p : Prog A) :
  recovers recover p →
  ∀ (o : Oracle) tr pre ev post r exn,
    run o p tr = (pre ++ ev :: post, r) →
    (length tr ≤ length pre)%nat →
    Forall (λ ev', raised_by ev' = None) (drop (length tr) pre) →
    raised_by ev = Some exn →
    run o (recover exn) (pre ++ [ev]) = (pre ++ ev :: post, r).
Proof.
  intros Hp. induction Hp as [a | X e k Hraise Hcont IH];
    intros o tr pre ev post r exn Hrun Hlen Hfirst Hev.
  - simpl in Hrun. injection Hrun as Htr _.
    apply (f_equal length) in Htr. rewrite length_app in Htr. simpl in Htr.
    lia.
  - simpl in Hrun.
    destruct (run_suffix o (k (o X tr e)) (tr ++ [Ev e (o X tr e)]))
      as [suffix Hsuffix].
    rewrite Hrun in Hsuffix. simpl in Hsuffix.
    rewrite <- (assoc_L (++)) in Hsuffix. simpl in Hsuffix.
    destruct (decide (length tr = length pre)) as [Heq | Hneq].
    + apply app_inj_1 in Hsuffix as [-> Hhead]; [| done].
      injection Hhead as -> _. simpl in Hev.
      by rewrite <- (Hraise _ _ Hev).
    + assert (∃ pre', pre = tr ++ Ev e (o X tr e) :: pre') as [pre' ->].
      { rewrite <- (take_drop (length tr) pre) in Hsuffix.
        rewrite <- (assoc_L (++)) in Hsuffix.
        apply app_inj_1 in Hsuffix as [Htake Hrest];
          [| rewrite length_take; lia].
        destruct (drop (length tr) pre) as [| ev' rest] eqn:Hdrop.
        { apply (f_equal length) in Hdrop. rewrite length_drop in Hdrop.
          simpl in Hdrop. lia. }
        simpl in Hrest. injection Hrest as -> _.
        exists rest. by rewrite <- (take_drop (length tr) pre), Htake, Hdrop. }
      rewrite drop_app_length in Hfirst.
      apply Forall_cons in Hfirst as [Hhead Hfirst]. simpl in Hhead.
      apply (IH _ Hhead o (tr ++ [Ev e (o X tr e)])); [| | | done].
      * by rewrite Hrun.
      * rewrite !length_app. simpl. lia.
      * rewrite (cons_middle _ tr pre'), (assoc_L (++)), drop_app_length.
        done.
Qed.

Lemma trace_of_bind {A B : Type} (o : Oracle) (p : Prog A) (f : A → Prog B)
    tr :
  trace_of o (bind p f) tr
  = trace_of o (f (result_of o p tr)) (trace_of o p tr).
Proof. unfold trace_of at 1. by rewrite run_bind. Qed.

Lemma result_of_bind {A B : Type} (o : Oracle) (p : Prog A) (f : A → Prog B)
    tr :
  result_of o (bind p f) tr
  = result_of o (f (result_of o p tr)) (trace_of o p tr).
Proof. unfold result_of at 1. by rewrite run_bind. Qed.
Section Properties.

Context `{Collaborators}.

(** ** Resize *)

(** C8: for every state, [c_bigger] and [c_smaller] return the state whose
    [width] is [max (width + 10) 1], respectively [max (width - 10) 1], and
    whose other fields (root, index, selection, filter_pattern,
    show_hidden, follow, enable_vc, vc, current, paths_lookup, qf) are those
    of the old state; the new width is at least 1; the only call made is
    the resize of the sidebar windows, so the tree is not rebuilt. *)
Theorem resize_changes_width_only (o : Oracle) tr state settings :
  let bigger := Z.max (State.width state + 10) 1 in
  let smaller := Z.max (State.width state - 10) 1 in
  run o (c_bigger state settings) tr
  = (tr ++ [Ev (resize_fm_windows bigger) (o _ tr (resize_fm_windows bigger))],
     new_stage (set_width state bigger))
  ∧ run o (c_smaller state settings) tr
    = (tr ++ [Ev (resize_fm_windows smaller)
                 (o _ tr (resize_fm_windows smaller))],
       new_stage (set_width state smaller))
  ∧ 1 ≤ bigger ∧ 1 ≤ smaller.
Proof.
  intros bigger smaller.
  split; [reflexivity |]. split; [reflexivity |].
  subst bigger smaller. lia.
Qed.

(** ** Filter *)

(** C6: whatever the prior state and its selection, when the user answers
    the filter prompt with a non-empty pattern, [c_new_filter] returns a
    state whose selection is empty (and whose filter is that pattern). *)
Theorem new_filter_empties_selection (o : Oracle) tr state settings p :
  o _ tr (input (LANG "new_filter" []) (current_pattern state)) = Some p →
  p ≠ "" →
  let new_state := Stage.state (result_of o (c_new_filter state settings) tr) in
  State.selection new_state = ∅
  ∧ State.filter_pattern new_state = Some (FilterPattern.mk p).
Proof.
  intros Hans Hp. unfold result_of, c_new_filter. simpl.
  rewrite Hans. destruct p as [| c p]; [done |]. simpl. done.
Qed.

(** C10: [c_clear_filter] returns a state whose [filter_pattern] is [None]
    and whose selection, index, show_hidden, follow, enable_vc, vc, width,
    current and qf are those of the old state; what the reducer derives
    again after a change of filter, the tree snapshot and [paths_lookup],
    is not constrained.  [c_new_filter], in contrast, always returns an
    empty selection. *)
Theorem clear_filter_keeps_selection (o : Oracle) tr state settings :
  let new_state :=
    Stage.state (result_of o (c_clear_filter state settings) tr) in
  State.filter_pattern new_state = None
  ∧ State.selection new_state = State.selection state
  ∧ State.index new_state = State.index state
  ∧ State.show_hidden new_state = State.show_hidden state
  ∧ State.follow new_state = State.follow state
  ∧ State.enable_vc new_state = State.enable_vc state
  ∧ State.vc new_state = State.vc state
  ∧ State.width new_state = State.width state
  ∧ State.current new_state = State.current state
  ∧ State.qf new_state = State.qf state
  ∧ State.selection
      (Stage.state (result_of o (c_new_filter state settings) tr)) = ∅.
Proof.
  unfold result_of, c_clear_filter, c_new_filter. simpl.
  repeat split.
  destruct (o _ tr (input _ _)) as [[| c p] |]; reflexivity.
Qed.

(** ** Click *)

Lemma quiet_index state : quiet (_index state).
Proof.
  unfold _index. apply quiet_bind; [by apply quiet_call |].
  intros [|]; [| constructor].
  apply quiet_bind; [by apply quiet_call | constructor].
Qed.

Lemma run_click_node (o : Oracle) tr state settings click_type node :
  result_of o (_index state) tr = Some node →
  run o (_click state settings click_type) tr
  = run o
      (if bool_decide (orphan_link ∈ Node.mode node) then
         let* _ :=
           call (write (LANG "dead_link" [("name", Node.name node)]) true) in
         Ret None
       else if bool_decide (folder ∈ Node.mode node) then
         if supplied (State.filter_pattern state) then
           let* _ := call (write (LANG "filter_click" []) false) in
           Ret None
         else
           let* new_state :=
             forward state settings
               [kw_index (sym_diff (State.index state) {[Node.path node]});
                kw_paths {[Node.path node]}] in
           Ret (Some (new_stage new_state))
       else
         let* nxt := _open_file state settings (Node.path node) click_type in
         Ret nxt)
      (trace_of o (_index state) tr).
Proof. intros Hnode. unfold _click. by rewrite run_bind, Hnode. Qed.

(** C9: a click on a folder node while a filter is set returns no stage,
    hence no new state (index and selection stay those of the current
    state), and makes no call with a side effect. *)
Theorem click_folder_under_filter (o : Oracle) tr state settings click_type
    node :
  result_of o (_index state) tr = Some node →
  folder ∈ Node.mode node →
  State.filter_pattern state ≠ None →
  result_of o (_click state settings click_type) tr = None
  ∧ side_effects (fresh o (_click state settings click_type) tr) = [].
Proof.
  intros Hnode Hfolder Hfilter.
  assert (supplied (State.filter_pattern state) = true) as Hsup
    by (by destruct (State.filter_pattern state)).
  split.
  - unfold result_of. rewrite (run_click_node _ _ _ _ _ node Hnode).
    rewrite (bool_decide_eq_true_2 _ Hfolder), Hsup.
    by destruct (bool_decide (orphan_link ∈ Node.mode node)).
  - unfold _click. rewrite fresh_bind, side_effects_app.
    rewrite (quiet_fresh _ _ _ (quiet_index state)). simpl.
    rewrite Hnode, (bool_decide_eq_true_2 _ Hfolder), Hsup.
    by destruct (bool_decide (orphan_link ∈ Node.mode node));
      rewrite fresh_vis, fresh_ret.
Qed.

Lemma elem_of_sym_diff (a b : gset Path) i :
  i ∈ sym_diff a b ↔ (i ∈ a ∧ i ∉ b) ∨ (i ∈ b ∧ i ∉ a).
Proof. unfold sym_diff. set_solver. Qed.

(** C1 (as amended): a click on a folder node that is not a dead link,
    with no filter set, returns a state whose index is the symmetric
    difference of the old index with the singleton of the clicked path,
    and whose selection is the old one; the collapse action, on a node
    whose folder (the node itself if it is a folder, its directory
    otherwise) is not the root, returns a state whose index is the old
    index without the paths that are that folder or lie below it, and
    whose selection is the old one. *)
Theorem click_toggles_and_collapse_evicts (o : Oracle) tr state settings
    click_type node :
  result_of o (_index state) tr = Some node →
  (folder ∈ Node.mode node → orphan_link ∉ Node.mode node →
   State.filter_pattern state = None →
   ∃ new_state,
     result_of o (_click state settings click_type) tr
     = Some (new_stage new_state)
     ∧ State.index new_state
       = sym_diff (State.index state) {[Node.path node]}
     ∧ (∀ i, i ∈ State.index new_state
             ↔ (i ∈ State.index state ∧ i ≠ Node.path node)
               ∨ (i = Node.path node ∧ i ∉ State.index state))
     ∧ State.selection new_state = State.selection state)
  ∧ (let path :=
       if bool_decide (folder ∈ Node.mode node) then Node.path node
       else dirname (Node.path node) in
     path ≠ Node.path (State.root state) →
     ∃ new_state,
       result_of o (c_collapse state settings) tr
       = Some (new_stage new_state)
       ∧ (∀ i, i ∈ State.index new_state
               ↔ i ∈ State.index state
                 ∧ ¬ (i = path ∨ is_parent path i = true))
       ∧ State.selection new_state = State.selection state).
Proof.
  intros Hnode. split.
  - intros Hfolder Horphan Hfilter.
    unfold result_of. rewrite (run_click_node _ _ _ _ _ node Hnode).
    rewrite (bool_decide_eq_false_2 _ Horphan).
    rewrite (bool_decide_eq_true_2 _ Hfolder), Hfilter. simpl.
    eexists. split; [reflexivity |]. simpl. split; [done |]. split; [| done].
    intros i. rewrite elem_of_sym_diff. set_solver.
  - intros path Hroot. unfold result_of, c_collapse.
    rewrite run_bind, Hnode. fold path.
    rewrite (bool_decide_eq_true_2 _ Hroot), run_bind. simpl.
    rewrite run_bind. simpl.
    eexists. split; [reflexivity |]. simpl. split; [| done].
    intros i. rewrite elem_of_difference, elem_of_filter. tauto.
Qed.


(** ** Follow *)

(** C7: on a buffer-focus event with active file path [p]: when [p] lies
    under the root, [a_follow] returns a state whose index is the old one
    joined with [ancestors p] if follow is on and the old one if follow
    is off, and whose [current] is [p] either way; when [p] does not lie
    under the root, it returns no stage and makes no further call. *)
Theorem follow_expands_ancestors (o : Oracle) tr state settings p :
  o _ tr find_current_buffer_name = p →
  (p ≠ "" → is_parent (Node.path (State.root state)) p = true →
   ∃ new_state,
     result_of o (a_follow state settings) tr = Some (new_stage new_state)
     ∧ State.index new_state
       = (if State.follow state
          then State.index state ∪ list_to_set (ancestors p)
          else State.index state)
     ∧ State.current new_state = Some p)
  ∧ (is_parent (Node.path (State.root state)) p = false →
     run o (a_follow state settings) tr
     = (tr ++ [Ev find_current_buffer_name p], None)).
Proof.
  intros Hp. unfold result_of, a_follow. simpl. rewrite Hp.
  unfold _current. split.
  - intros Hne Hparent.
    assert (nonempty p = true) as -> by (by destruct p).
    rewrite Hparent. simpl. eexists. split; [reflexivity |]. simpl.
    split; [| done].
    destruct (State.follow state); [done |]. apply (right_id_L ∅ (∪)).
  - intros Hparent. rewrite Hparent. by destruct (nonempty p).
Qed.

(** ** Delete and trash *)

Lemma quiet_traverse {A B : Type} (f : A → Prog B) (l : list A) :
  (∀ a, quiet (f a)) → quiet (traverse f l).
Proof.
  intros Hf. induction l as [| a l IH]; simpl; [constructor |].
  apply quiet_bind; [done |]. intros b.
  apply quiet_bind; [done |]. constructor.
Qed.

Lemma quiet_filter_by {A : Type} (f : A → Prog bool) (l : list A) :
  (∀ a, quiet (f a)) → quiet (filter_by f l).
Proof.
  intros Hf. induction l as [| a l IH]; simpl; [constructor |].
  apply quiet_bind; [done |]. intros b.
  apply quiet_bind; [done |]. constructor.
Qed.

Lemma quiet_indices state is_visual : quiet (_indices state is_visual).
Proof.
  unfold _indices. destruct is_visual.
  - apply quiet_bind; [by apply quiet_call |]. intros [r1 r2]. constructor.
  - apply quiet_bind; [by apply quiet_call |]. constructor.
Qed.

Lemma quiet_display_path path state : quiet (_display_path path state).
Proof.
  unfold _display_path. apply quiet_bind; [by apply quiet_call |].
  constructor.
Qed.

Lemma quiet_delete_selection state is_visual :
  quiet (delete_selection state is_visual).
Proof.
  unfold delete_selection. destruct (bool_decide _); [constructor |].
  apply quiet_bind; [apply quiet_indices | constructor].
Qed.

Lemma quiet_delete_display_list state unified :
  quiet (delete_display_list state unified).
Proof.
  unfold delete_display_list. apply quiet_bind; [| constructor].
  apply quiet_traverse. intros a. apply quiet_display_path.
Qed.

Lemma traverse_length {A B : Type} (o : Oracle) (f : A → Prog B) l tr :
  length (result_of o (traverse f l) tr) = length l.
Proof.
  revert tr. induction l as [| a l IH]; intros tr; [done |].
  unfold result_of. simpl. rewrite !run_bind. simpl. f_equal. apply IH.
Qed.

Lemma insert_sorted_length {A : Type} (key : A → string) x (l : list A) :
  length (insert_sorted key x l) = S (length l).
Proof.
  induction l as [| y l IH]; simpl; [done |].
  destruct (String.leb _ _); simpl; [done | by rewrite IH].
Qed.

Lemma sorted_length {A : Type} (key : A → string) (l : list A) :
  length (sorted key l) = length l.
Proof.
  induction l as [| x l IH]; simpl; [done |].
  by rewrite insert_sorted_length, IH.
Qed.

Lemma delete_display_list_length (o : Oracle) state unified tr :
  length (result_of o (delete_display_list state unified) tr)
  = length unified.
Proof.
  unfold result_of, delete_display_list. rewrite run_bind. simpl.
  rewrite sorted_length. apply traverse_length.
Qed.

Lemma insert_sorted_perm {A : Type} (key : A → string) x (l : list A) :
  insert_sorted key x l ≡ₚ x :: l.
Proof.
  induction l as [| y l IH]; simpl; [done |].
  destruct (String.leb _ _); [done |]. rewrite IH. apply Permutation_swap.
Qed.

Lemma sorted_perm {A : Type} (key : A → string) (l : list A) :
  sorted key l ≡ₚ l.
Proof.
  induction l as [| x l IH]; simpl; [done |].
  by rewrite insert_sorted_perm, IH.
Qed.

(** What [_display_path] shows for a path: its path relative to the
    root, with a separator appended when it is a directory. *)
Lemma traverse_display_path (o : Oracle) state unified tr :
  Forall2
    (λ path entry,
       let name :=
         replace_linesep (relpath path (Node.path (State.root state))) in
       entry = name ∨ entry = name +:+ "/")
    unified
    (result_of o (traverse (λ path, _display_path path state) unified) tr).
Proof.
  revert tr. induction unified as [| path unified IH]; intros tr.
  - constructor.
  - unfold result_of. cbn [traverse]. rewrite !run_bind. cbn [run snd].
    constructor; [| apply IH].
    unfold result_of, _display_path. simpl.
    destruct (o bool tr (isdir path)); [by right | by left].
Qed.

(** C3: [_delete] works on the selection when it is not empty, making no
    query, and otherwise on the paths of the nodes of the rows it asks
    for: the row of the cursor, or in visual mode the rows from the mark
    "<" to the mark ">".  When [unify_ancestors] of these paths is empty
    the handler stops with no stage.  Otherwise it asks for confirmation,
    having made no call with a side effect, and the list it shows has one
    entry per unified path (the relative path of each, in sorted order);
    an answer other than 1 ends the handler with no stage and no side
    effect.  With the answer 1 the next call is [yeet] on the unified
    paths; when that does not raise, the selection is cleared with the
    directories of the unified paths as the paths to rebuild, the
    buffers of the paths worked on are closed, and the state returned has
    an empty selection. *)
Theorem delete_confirms_unified_paths (o : Oracle) tr state settings
    is_visual (yeet : list Path → Eff (option Exn)) :
  let selection := result_of o (delete_selection state is_visual) tr in
  let tr1 := trace_of o (delete_selection state is_visual) tr in
  let marks := o _ tr buf_get_marks in
  let cursor := o _ tr win_get_cursor in
  let rows :=
    if is_visual then seqZ (marks.1 - 1) (marks.2 - (marks.1 - 1))
    else [cursor.1 - 1] in
  let unified := elements (unify_ancestors selection) in
  let display_list := result_of o (delete_display_list state unified) tr1 in
  let tr2 := trace_of o (delete_display_list state unified) tr1 in
  let ask :=
    confirm (LANG "ask_trash"
               [("linesep", linesep);
                ("display_paths", str_join linesep display_list)])
            (LANG "ask_yesno" [("linesep", linesep)]) 2 in
  let resp := o _ tr2 ask in
  let tr3 := tr2 ++ [Ev ask resp] in
  let raised := o _ tr3 (yeet unified) in
  let tr4 := tr3 ++ [Ev (yeet unified) raised] in
  let kws :=
    [kw_selection ∅; kw_paths (list_to_set (dirname <$> unified))] in
  let new_state := result_of o (forward state settings kws) tr4 in
  let tr5 := trace_of o (forward state settings kws) tr4 in
  (State.selection state ≠ ∅ →
   selection = State.selection state ∧ tr1 = tr)
  ∧ (State.selection state = ∅ →
     selection
     = list_to_set (Node.path <$> result_of o (_indices state is_visual) tr)
     ∧ selection
       = list_to_set (Node.path <$> omap (state_index state) rows)
     ∧ tr1 = tr ++ [if is_visual then Ev buf_get_marks marks
                    else Ev win_get_cursor cursor])
  ∧ (unify_ancestors selection = ∅ →
     run o (_delete state settings is_visual yeet) tr = (tr1, None))
  ∧ side_effects (drop (length tr) tr3) = []
  ∧ length display_list = size (unify_ancestors selection)
  ∧ (∃ shown,
       display_list ≡ₚ shown
       ∧ Forall2
           (λ path entry,
              let name :=
                replace_linesep
                  (relpath path (Node.path (State.root state))) in
              entry = name ∨ entry = name +:+ "/")
           unified shown)
  ∧ (unify_ancestors selection ≠ ∅ →
     (∃ rest,
        trace_of o (_delete state settings is_visual yeet) tr = tr3 ++ rest)
     ∧ (resp ≠ 1 →
        run o (_delete state settings is_visual yeet) tr = (tr3, None))
     ∧ (resp = 1 →
        (∃ rest,
           trace_of o (_delete state settings is_visual yeet) tr
           = tr4 ++ rest)
        ∧ (raised = None →
           run o (_delete state settings is_visual yeet) tr
           = (tr5 ++ [Ev (kill_buffers selection)
                         (o _ tr5 (kill_buffers selection))],
              Some (new_stage new_state))
           ∧ State.selection new_state = ∅
           ∧ State.index new_state = State.index state
           ∧ State.filter_pattern new_state = State.filter_pattern state))).
Proof.
  intros selection tr1 marks cursor rows unified display_list tr2 ask resp
    tr3 raised tr4 kws new_state tr5.
  split; [| split; [| split; [| split; [| split; [| split]]]]].
  - intros Hsel. subst selection tr1.
    unfold result_of, trace_of, delete_selection.
    by rewrite (bool_decide_eq_true_2 _ Hsel).
  - intros Hsel. subst selection tr1.
    unfold result_of, trace_of, delete_selection.
    rewrite bool_decide_eq_false_2 by (by intros []).
    rewrite run_bind. split; [done |].
    subst rows. unfold result_of, trace_of, _indices.
    destruct is_visual; simpl.
    + fold marks. by destruct marks as [r1 r2].
    + fold cursor. split; [| done].
      by destruct (state_index state (cursor.1 - 1)).
  - intros Hempty. unfold _delete. rewrite run_bind.
    fold selection tr1. by rewrite Hempty, elements_empty.
  - subst tr3 tr2 tr1.
    rewrite (run_extends o (delete_display_list _ _)).
    rewrite (run_extends o (delete_selection _ _)).
    rewrite <- !(assoc_L (++)), drop_app_length, !side_effects_app.
    rewrite (quiet_fresh _ _ _ (quiet_delete_selection _ _)).
    by rewrite (quiet_fresh _ _ _ (quiet_delete_display_list _ _)).
  - subst display_list. by rewrite delete_display_list_length.
  - exists (result_of o (traverse (λ path, _display_path path state) unified)
                     tr1).
    split; [| apply traverse_display_path].
    subst display_list. unfold result_of at 1, delete_display_list.
    rewrite run_bind. simpl. apply sorted_perm.
  - intros Hunified.
    assert (unified ≠ []) as Hne.
    { subst unified. intros Hnil. apply Hunified.
      by apply elements_empty_inv, leibniz_equiv in Hnil. }
    assert (run o (_delete state settings is_visual yeet) tr
            = run o
                (if bool_decide (resp = 1) then
                   let* raised := call (yeet unified) in
                   match raised with
                   | Some e =>
                       let* _ := call (write e true) in
                       let* stage := _refresh state settings false in
                       Ret (Some stage)
                   | None =>
                       let* new_state := forward state settings kws in
                       let* _ := call (kill_buffers selection) in
                       Ret (Some (new_stage new_state))
                   end
                 else Ret None) tr3) as Hrun.
    { unfold _delete. rewrite run_bind.
      fold selection tr1 unified.
      destruct unified as [| u unified'] eqn:Eu; [done |].
      rewrite run_bind. fold display_list tr2.
      unfold ask_yesno. rewrite !run_bind. done. }
    split; [| split].
    + unfold trace_of. rewrite Hrun. apply run_suffix.
    + intros Hresp. rewrite Hrun.
      by rewrite (bool_decide_eq_false_2 _ Hresp).
    + intros Hresp. rewrite (bool_decide_eq_true_2 _ Hresp) in Hrun.
      rewrite run_bind in Hrun.
      change (result_of o (call (yeet unified)) tr3) with raised in Hrun.
      change (trace_of o (call (yeet unified)) tr3) with tr4 in Hrun.
      split.
      * unfold trace_of. rewrite Hrun. apply run_suffix.
      * intros Hraised. rewrite Hraised in Hrun. rewrite Hrun.
        rewrite run_bind. fold new_state tr5.
        split; [reflexivity |].
        subst new_state. unfold result_of, forward. by simpl.
Qed.

(** ** A mutation that raises *)

Lemma calm_forward state settings kws : calm (forward state settings kws).
Proof.
  unfold forward. destruct (_ || _); [| constructor].
  apply calm_bind; [by apply calm_call | constructor].
Qed.

Lemma calm_ask_yesno question : calm (ask_yesno question).
Proof.
  unfold ask_yesno. apply calm_bind; [by apply calm_call | constructor].
Qed.

Lemma calm_open_file state settings path click_type :
  calm (_open_file state settings path click_type).
Proof.
  unfold _open_file. apply calm_bind.
  - destruct (_ && _); [apply calm_ask_yesno | constructor].
  - intros [|]; [| constructor].
    apply calm_bind; [apply calm_forward |]. intros new_state.
    apply calm_bind; [by apply calm_call | constructor].
Qed.

Ltac solve_calm :=
  repeat first
    [ apply calm_forward | apply calm_open_file | apply calm_ask_yesno
    | apply (free_of_ret (@mutation))
    | apply (free_of_vis (@mutation)); [reflexivity |]
    | apply calm_bind
    | intro ].

Lemma recovers_delete state settings is_visual
    (yeet : list Path → Eff (option Exn)) :
  (∀ paths x, raised (yeet paths) x = x) →
  recovers (report_and_refresh state settings)
           (_delete state settings is_visual yeet).
Proof.
  intros Hyeet. unfold _delete.
  apply recovers_bind_calm;
    [apply quiet_calm, quiet_delete_selection |]. intros selection.
  destruct (elements (unify_ancestors selection)) as [| u unified];
    [constructor |].
  apply recovers_bind_calm;
    [apply quiet_calm, quiet_delete_display_list |]. intros display_list.
  apply recovers_bind_calm; [apply calm_ask_yesno |].
  intros [|]; [| constructor]. constructor.
  - intros x exn. rewrite Hyeet. by intros ->.
  - intros x. rewrite Hyeet. intros ->. apply calm_recovers. simpl. solve_calm.
Qed.

Lemma recovers_rename state settings :
  recovers (report_and_refresh state settings) (c_rename state settings).
Proof.
  unfold c_rename.
  apply recovers_bind_calm; [apply quiet_calm, quiet_index |].
  intros [node |]; [| constructor].
  apply recovers_bind_calm; [by apply calm_call |].
  intros [child |]; [| constructor].
  destruct (nonempty child); [| constructor].
  apply recovers_bind_calm; [by apply calm_call |].
  intros [|].
  - apply calm_recovers. apply calm_bind; [by apply calm_call | constructor].
  - constructor.
    + intros x exn Hx. simpl in Hx. by subst x.
    + intros x Hx. simpl in Hx. subst x. apply calm_recovers. simpl. solve_calm.
Qed.

Lemma recovers_new state settings :
  recovers (report_and_refresh state settings) (c_new state settings).
Proof.
  unfold c_new.
  apply recovers_bind_calm; [apply quiet_calm, quiet_index |].
  intros cursor.
  apply recovers_bind_calm; [by apply calm_call |].
  intros [child |]; [| constructor].
  destruct (nonempty child); [| constructor].
  apply recovers_bind_calm; [by apply calm_call |].
  intros [|].
  - apply calm_recovers. apply calm_bind; [by apply calm_call | constructor].
  - constructor.
    + intros x exn Hx. simpl in Hx. by subst x.
    + intros x Hx. simpl in Hx. subst x. apply calm_recovers. simpl. solve_calm.
Qed.

Lemma calm_p_pre operations : calm (p_pre operations).
Proof.
  unfold p_pre. apply quiet_calm, quiet_filter_by.
  intros a. by apply quiet_call.
Qed.

Lemma quiet_ask_renames pre_existing operations :
  quiet (ask_renames pre_existing operations).
Proof.
  revert operations.
  induction pre_existing as [| [source dest] rest IH]; intros operations;
    simpl; [constructor |].
  constructor; [done |]. intros new_dest.
  destruct (truthy new_dest); [apply IH | constructor].
Qed.

Lemma quiet_display_pair state sd : quiet (display_pair state sd).
Proof.
  unfold display_pair.
  apply quiet_bind; [apply quiet_display_path |]. intros s.
  apply quiet_bind; [apply quiet_display_path | constructor].
Qed.

Lemma recovers_operation state settings op_name
    (action : list (Path * Path) → Eff (option Exn)) :
  (∀ operations x, raised (action operations) x = x) →
  recovers (report_and_refresh state settings)
           (_operation state settings op_name action).
Proof.
  intros Haction. unfold _operation.
  apply recovers_bind_calm; [apply quiet_calm, quiet_index |].
  intros node.
  assert (recovers (report_and_refresh state settings)
            (let* _ := call (write (LANG "nothing_select" []) true) in
             Ret None)) as Hnothing.
  { apply calm_recovers, calm_bind; [by apply calm_call | constructor]. }
  destruct (elements (unify_ancestors (State.selection state)))
    as [| u unified]; [done |].
  destruct node as [node |]; [| done].
  apply recovers_bind_calm; [apply calm_p_pre |]. intros pre_existing.
  apply recovers_bind_calm.
  { destruct pre_existing; [constructor |].
    apply calm_bind; [apply quiet_calm, quiet_ask_renames |].
    intros [operations |]; [| constructor].
    apply calm_bind; [apply calm_p_pre | constructor]. }
  intros [[operations [| sd still_existing]] |]; [| | constructor].
  - apply recovers_bind_calm.
    { apply quiet_calm, quiet_traverse. apply quiet_display_pair. }
    intros shown.
    apply recovers_bind_calm; [apply calm_ask_yesno |].
    intros [|]; [| constructor]. constructor.
    + intros x exn. rewrite Haction. by intros ->.
    + intros x. rewrite Haction. intros ->. apply calm_recovers. simpl. solve_calm.
  - apply calm_recovers. apply calm_bind.
    { apply quiet_calm, quiet_traverse. apply quiet_display_pair. }
    intros shown. apply calm_bind; [by apply calm_call | constructor].
Qed.

Lemma mutating_handler_recovers state settings handler :
  mutating_handler state settings handler →
  recovers (report_and_refresh state settings) handler.
Proof.
  intros [is_visual | is_visual | | | |].
  - by apply recovers_delete.
  - by apply recovers_delete.
  - apply recovers_rename.
  - apply recovers_new.
  - by apply recovers_operation.
  - by apply recovers_operation.
Qed.

Lemma run_report_and_refresh (o : Oracle) state settings exn tr :
  let report := Ev (write exn true) (o _ tr (write exn true)) in
  run o (report_and_refresh state settings exn) tr
  = (trace_of o (_refresh state settings false) (tr ++ [report]),
     Some (result_of o (_refresh state settings false) (tr ++ [report]))).
Proof.
  intros report. unfold report_and_refresh.
  rewrite run_bind.
  change (trace_of o (call (write exn true)) tr) with (tr ++ [report]).
  by rewrite run_bind.
Qed.

(** C5: in every run of a mutating handler ([c_delete], [c_trash],
    [c_rename], [c_new], [c_cut], [c_copy]) in which a call to the file
    system raises [exn], the next call writes [exn] to the user as an
    error, what follows is the run of [_refresh] on the state the handler
    was given, and the stage returned is the one of that refresh: the
    handler's own update of the state is not applied. *)
Theorem mutation_failure_reports_and_refreshes (o : Oracle) state settings
    handler tr pre ev post r exn :
  mutating_handler state settings handler →
  run o handler tr = (pre ++ ev :: post, r) →
  (length tr ≤ length pre)%nat →
  Forall (λ ev', raised_by ev' = None) (drop (length tr) pre) →
  raised_by ev = Some exn →
  let report := Ev (write exn true) (o _ (pre ++ [ev]) (write exn true)) in
  ∃ stage,
    r = Some stage
    ∧ run o (_refresh state settings false) (pre ++ [ev; report])
      = (pre ++ ev :: post, stage)
    ∧ ∃ rest, post = report :: rest.
Proof.
  intros Hhandler Hrun Hlen Hfirst Hev report.
  pose proof (recovers_run _ _ (mutating_handler_recovers _ _ _ Hhandler)
                o tr pre ev post r exn Hrun Hlen Hfirst Hev) as Hrec.
  rewrite run_report_and_refresh in Hrec. fold report in Hrec.
  rewrite <- (assoc_L (++)) in Hrec.
  change ([ev] ++ [report]) with [ev; report] in Hrec.
  exists (result_of o (_refresh state settings false) (pre ++ [ev; report])).
  injection Hrec as Htrace Hr. split; [done |]. split.
  - rewrite <- Htrace. unfold trace_of, result_of. apply surjective_pairing.
  - destruct (run_suffix o (_refresh state settings false)
                (pre ++ [ev; report])) as [rest Hrest].
    unfold trace_of in Htrace. rewrite Hrest in Htrace.
    rewrite <- (assoc_L (++)) in Htrace.
    apply app_inv_head in Htrace. injection Htrace as <-. by exists rest.
Qed.

(** ** Cut and copy *)

Lemma elem_of_pre_op unified node src dst :
  (src, dst) ∈ pre_op unified node
  ↔ src ∈ unified ∧ dst = _find_dest src node.
Proof.
  unfold pre_op. rewrite list_elem_of_fmap. split.
  - intros (s & [= -> ->] & Hs). done.
  - intros [Hs ->]. by exists src.
Qed.

(** The loop of prompts asks about the colliding operations in order, one
    prompt each with the colliding destination as text, stops at the
    first empty answer, and gives up exactly when there was one. *)
Lemma ask_renames_prompts (o : Oracle) pre_existing operations tr :
  let events := fresh o (ask_renames pre_existing operations) tr in
  let renamed := result_of o (ask_renames pre_existing operations) tr in
  omap prompted events = take (length events) (pre_existing.*2)
  ∧ (length events ≤ length pre_existing)%nat
  ∧ (renamed ≠ None → length events = length pre_existing)
  ∧ (renamed = None ↔ Exists (λ ev, declined ev = true) events).
Proof.
  revert operations tr.
  induction pre_existing as [| [source dest] rest IH]; intros operations tr.
  - simpl. rewrite fresh_ret. unfold result_of. simpl.
    split; [done |]. split; [done |]. split; [done |].
    split; [done | by intros ?%Exists_nil].
  - cbn zeta. unfold result_of. cbn [ask_renames]. cbn [bind call].
    rewrite fresh_vis. cbn [run].
    set (x := o _ tr (input (LANG "path_exists_err" []) dest)).
    set (tr' := tr ++ [Ev (input (LANG "path_exists_err" []) dest) x]).
    destruct (truthy x) eqn:Hx.
    + specialize (IH (dict_set operations source (default "" x)) tr').
      cbn zeta in IH. unfold result_of in IH.
      destruct IH as (Hprompts & Hlen & Hall & Hnone).
      split; [| split; [| split]].
      * cbn -[fresh]. by rewrite Hprompts.
      * cbn -[fresh]. lia.
      * intros Hsome. cbn -[fresh]. f_equal. by apply Hall.
      * rewrite Hnone, Exists_cons. cbn -[fresh]. rewrite Hx.
        split; [by right | by intros [? | ?]].
    + rewrite fresh_ret. simpl.
      split; [done |]. split; [lia |]. split; [done |].
      split; [| done]. intros _. apply Exists_cons_hd. simpl. by rewrite Hx.
Qed.

Lemma filter_by_answers {A : Type} (o : Oracle) (q : A → Eff bool) l tr a :
  (a ∈ result_of o (filter_by (λ a, call (q a)) l) tr →
   a ∈ l ∧ Ev (q a) true ∈ fresh o (filter_by (λ a, call (q a)) l) tr)
  ∧ (a ∈ l → a ∉ result_of o (filter_by (λ a, call (q a)) l) tr →
     Ev (q a) false ∈ fresh o (filter_by (λ a, call (q a)) l) tr).
Proof.
  revert tr. induction l as [| b l IH]; intros tr.
  - unfold result_of. simpl. split; [by intros ?%elem_of_nil |].
    by intros ?%elem_of_nil.
  - unfold result_of. cbn [filter_by]. cbn [bind call].
    rewrite fresh_vis. cbn [run]. rewrite fresh_bind, run_bind. cbn [run snd].
    set (x := o _ tr (q b)). set (tr' := tr ++ [Ev (q b) x]).
    specialize (IH tr'). destruct IH as [IH1 IH2].
    fold (result_of o (filter_by (λ a, call (q a)) l) tr').
    rewrite fresh_ret, app_nil_r.
    split.
    + destruct x eqn:Hx.
      * intros [-> | Ha]%elem_of_cons.
        { split; [by left |]. by left. }
        destruct (IH1 Ha) as [? ?]. split; by right.
      * intros Ha. destruct (IH1 Ha) as [? ?]. split; by right.
    + intros [-> | Ha]%elem_of_cons Hnot.
      * destruct x eqn:Hx; [| by left].
        exfalso. apply Hnot. by left.
      * right. apply IH2; [done |]. intros Hin. apply Hnot.
        destruct x; [by right | done].
Qed.

(** C4 (as amended): with a node under the cursor, [_operation] assigns
    to each path of the unified selection the destination that joins its
    basename to the node's path if the node is a folder and to the
    node's directory otherwise.  The operations whose destination was
    found to exist are then prompted for, in order, one prompt each with
    the colliding destination as text, up to the first empty answer; up
    to that point no call has a side effect; an empty answer ends the
    handler there with no stage. *)
Theorem operation_destinations_and_prompts (o : Oracle) tr state settings
    op_name (action : list (Path * Path) → Eff (option Exn)) node :
  result_of o (_index state) tr = Some node →
  unify_ancestors (State.selection state) ≠ ∅ →
  let tr0 := trace_of o (_index state) tr in
  let parent :=
    if bool_decide (folder ∈ Node.mode node) then Node.path node
    else dirname (Node.path node) in
  let operations :=
    pre_op (elements (unify_ancestors (State.selection state))) node in
  let pre_existing := result_of o (p_pre operations) tr0 in
  let tr1 := trace_of o (p_pre operations) tr0 in
  let prompts := fresh o (ask_renames pre_existing operations) tr1 in
  let tr2 := tr1 ++ prompts in
  (∀ src dst,
     (src, dst) ∈ operations
     ↔ src ∈ unify_ancestors (State.selection state)
       ∧ dst = join parent (basename src))
  ∧ (∀ sd, sd ∈ pre_existing →
           sd ∈ operations
           ∧ Ev (path_exists sd.2) true ∈ drop (length tr0) tr1)
  ∧ (∀ sd, sd ∈ operations → sd ∉ pre_existing →
           Ev (path_exists sd.2) false ∈ drop (length tr0) tr1)
  ∧ omap prompted prompts = take (length prompts) (pre_existing.*2)
  ∧ (¬ Exists (λ ev, declined ev = true) prompts →
     omap prompted prompts = pre_existing.*2)
  ∧ side_effects (drop (length tr) tr2) = []
  ∧ (∃ rest,
       trace_of o (_operation state settings op_name action) tr
       = tr2 ++ rest)
  ∧ (Exists (λ ev, declined ev = true) prompts →
     run o (_operation state settings op_name action) tr = (tr2, None)).
Proof.
  intros Hnode Hunified. cbn zeta.
  remember (elements (unify_ancestors (State.selection state))) as unified
    eqn:Hu.
  set (tr0 := trace_of o (_index state) tr).
  set (parent := if bool_decide (folder ∈ Node.mode node)
                 then Node.path node else dirname (Node.path node)).
  set (operations := pre_op unified node).
  set (pre_existing := result_of o (p_pre operations) tr0).
  set (tr1 := trace_of o (p_pre operations) tr0).
  set (prompts := fresh o (ask_renames pre_existing operations) tr1).
  set (tr2 := tr1 ++ prompts).
  destruct (ask_renames_prompts o pre_existing operations tr1)
    as (Hprompts & Hlen & Hall & Hnone).
  fold prompts in Hprompts, Hlen, Hall, Hnone.
  assert (tr2 = trace_of o (ask_renames pre_existing operations) tr1)
    as Htr2 by (by rewrite run_extends).
  assert (run o (_operation state settings op_name action) tr
          = run o
              (let* resolved :=
                 match pre_existing with
                 | _ :: _ =>
                     let* renamed := ask_renames pre_existing operations in
                     match renamed with
                     | Some operations =>
                         let* pre_existing := p_pre operations in
                         Ret (Some (operations, pre_existing))
                     | None => Ret None
                     end
                 | [] => Ret (Some (operations, pre_existing))
                 end in
               match resolved with
               | None => Ret None
               | Some (operations, (_ :: _) as pre_existing) =>
                   let* shown :=
                     traverse (display_pair state)
                       (sorted (λ t, strxfrm (fst t)) pre_existing) in
                   let msg := str_join ", " shown in
                   let* _ :=
                     call (write ("⚠️  -- " +:+ op_name
                                  +:+ ": path(s) already exist! :: " +:+ msg)
                                 true) in
                   Ret None
               | Some (operations, []) =>
                   let* shown :=
                     traverse (display_pair state)
                       (sorted (λ t, strxfrm (fst t)) operations) in
                   let msg := str_join linesep shown in
                   let* ans :=
                     ask_yesno (op_name +:+ linesep +:+ msg +:+ "?") in
                   if ans : bool then
                     let* raised := call (action operations) in
                     match raised with
                     | Some e =>
                         let* _ := call (write e true) in
                         let* stage := _refresh state settings false in
                         Ret (Some stage)
                     | None =>
                         let paths : gset Path :=
                           list_to_set
                             (dirname
                                <$> (operations.*1 ++ operations.*2)) in
                         let index := State.index state ∪ paths in
                         let* new_state :=
                           forward state settings
                             [kw_index index; kw_selection ∅;
                              kw_paths paths] in
                         let* _ :=
                           call (kill_buffers (State.selection state)) in
                         Ret (Some (new_stage new_state))
                     end
                   else Ret None
               end) tr1) as Hrun.
  { unfold _operation. rewrite run_bind, Hnode. fold tr0.
    rewrite <- Hu. subst operations.
    destruct unified as [| u unified].
    { symmetry in Hu. by apply elements_empty_inv, leibniz_equiv in Hu. }
    by rewrite run_bind. }
  split; [| split; [| split; [| split; [| split; [| split; [| split]]]]]].
  - intros src dst. subst operations. rewrite elem_of_pre_op.
    by rewrite Hu, elem_of_elements.
  - intros sd Hsd.
    by apply (filter_by_answers o (λ sd, path_exists sd.2) operations tr0 sd).
  - intros sd Hsd Hnot.
    by apply (filter_by_answers o (λ sd, path_exists sd.2) operations tr0 sd).
  - done.
  - intros Hnot. rewrite Hprompts, Hall, <- (length_fmap snd), take_ge; [done.. |].
    intros Hres. by apply Hnot, Hnone.
  - rewrite Htr2. subst tr1 tr0.
    rewrite (run_extends o (ask_renames _ _)).
    rewrite (run_extends o (p_pre _)).
    rewrite (run_extends o (_index _)).
    rewrite <- !(assoc_L (++)), drop_app_length, !side_effects_app.
    rewrite (quiet_fresh _ _ _ (quiet_index _)).
    rewrite (quiet_fresh _ _ _ (quiet_ask_renames _ _)).
    unfold p_pre.
    rewrite (quiet_fresh o (filter_by _ _)); [done |].
    apply quiet_filter_by. intros a. by apply quiet_call.
  - unfold trace_of at 1. rewrite Hrun, run_bind.
    match goal with
    | |- ∃ rest, (run o ?p ?t).1 = _ =>
        destruct (run_suffix o p t) as [suffix ->]
    end.
    destruct pre_existing as [| sd pre_existing'] eqn:Hpre.
    + subst tr2 prompts. simpl ask_renames. rewrite fresh_ret, app_nil_r.
      by exists suffix.
    + rewrite trace_of_bind, <- Htr2.
      rewrite run_extends, <- !(assoc_L (++)). by eexists.
  - intros Hdeclined. apply Hnone in Hdeclined.
    rewrite Hrun, run_bind.
    destruct pre_existing as [| sd pre_existing'] eqn:Hpre; [done |].
    rewrite trace_of_bind, result_of_bind, <- Htr2, Hdeclined. done.
Qed.

End Properties.

(** * Scenarios

    The handlers run in the concrete world of [Demo]: the sidebar shows
    [/proj] and what is below it, the cursor is on a chosen row. *)

Ltac by_computation := apply (bool_decide_unpack _); vm_compute; exact I.

(** Root [/proj], index [{"/proj"}]: a click on the folder [/proj/src]
    yields the index [{"/proj", "/proj/src"}] and leaves the selection as
    it was. *)
Lemma click_expands_src :
  ∃ new_state,
    result_of (Demo.oracle (Demo.world 1 1 [] ∅ None))
      (@_click (Demo.collaborators Demo.rows)
         (Demo.state {["/proj"]} {["/proj/a.txt"]} None)
         Demo.settings primary) []
    = Some (new_stage new_state)
    ∧ State.index new_state = {["/proj"; "/proj/src"]}
    ∧ State.selection new_state = {["/proj/a.txt"]}.
Proof.
  destruct (@click_toggles_and_collapse_evicts (Demo.collaborators Demo.rows)
              (Demo.oracle (Demo.world 1 1 [] ∅ None)) []
              (Demo.state {["/proj"]} {["/proj/a.txt"]} None)
              Demo.settings primary (Demo.dir_node "/proj/src") eq_refl)
    as [Hclick _].
  destruct Hclick as (new_state & Hresult & Hindex & _ & Hselection).
  - by_computation.
  - by_computation.
  - reflexivity.
  - exists new_state. split; [done |]. split; [| done].
    rewrite Hindex. reflexivity.
Defined.

(** A click on the expanded folder [/proj/src], while its subfolder
    [/proj/src/lib] is expanded too, takes [/proj/src] out of the index
    and leaves [/proj/src/lib], a path of the index below the collapsed
    folder, in it. *)
Lemma click_collapse_keeps_descendants :
  ∃ new_state,
    result_of (Demo.oracle (Demo.world 1 1 [] ∅ None))
      (@_click (Demo.collaborators Demo.rows)
         (Demo.state {["/proj"; "/proj/src"; "/proj/src/lib"]} ∅ None)
         Demo.settings primary) []
    = Some (new_stage new_state)
    ∧ State.index new_state = {["/proj"; "/proj/src/lib"]}
    ∧ ("/proj/src" ∉ State.index new_state)
    ∧ is_parent "/proj/src" "/proj/src/lib" = true
    ∧ "/proj/src/lib" ∈ State.index new_state.
Proof.
  eexists. split; [reflexivity |].
  split; [reflexivity |]. split; [by_computation |].
  split; [reflexivity |]. by_computation.
Defined.

(** A state with a filter set: the click on the folder [/proj/src] gives
    no stage and has no side effect. *)
Lemma click_under_filter_does_nothing :
  result_of (Demo.oracle (Demo.world 1 1 [] ∅ None))
    (@_click (Demo.collaborators Demo.rows)
       (Demo.state {["/proj"]} ∅ (Some (FilterPattern.mk "*.py")))
       Demo.settings primary) []
  = None
  ∧ side_effects
      (fresh (Demo.oracle (Demo.world 1 1 [] ∅ None))
         (@_click (Demo.collaborators Demo.rows)
            (Demo.state {["/proj"]} ∅ (Some (FilterPattern.mk "*.py")))
            Demo.settings primary) [])
    = [].
Proof.
  apply (@click_folder_under_filter (Demo.collaborators Demo.rows)
           (Demo.oracle (Demo.world 1 1 [] ∅ None)) []
           (Demo.state {["/proj"]} ∅ (Some (FilterPattern.mk "*.py")))
           Demo.settings primary (Demo.dir_node "/proj/src")).
  - reflexivity.
  - by_computation.
  - discriminate.
Defined.

(** The user answers the filter prompt with [*.py]: the selection
    [{"/proj/a.txt"}] is emptied. *)
Lemma new_filter_scenario :
  State.selection
    (Stage.state
       (result_of (Demo.oracle (Demo.world 1 1 [Some "*.py"] ∅ None))
          (@c_new_filter (Demo.collaborators Demo.rows)
             (Demo.state {["/proj"]} {["/proj/a.txt"]} None) Demo.settings)
          []))
  = ∅
  ∧ State.filter_pattern
      (Stage.state
         (result_of (Demo.oracle (Demo.world 1 1 [Some "*.py"] ∅ None))
            (@c_new_filter (Demo.collaborators Demo.rows)
               (Demo.state {["/proj"]} {["/proj/a.txt"]} None) Demo.settings)
            []))
    = Some (FilterPattern.mk "*.py").
Proof.
  apply (@new_filter_empties_selection (Demo.collaborators Demo.rows)
           (Demo.oracle (Demo.world 1 1 [Some "*.py"] ∅ None)) []
           (Demo.state {["/proj"]} {["/proj/a.txt"]} None) Demo.settings
           "*.py").
  - reflexivity.
  - discriminate.
Defined.

(** The active buffer is [/proj/src/lib/x.py] and follow is on: its
    ancestors below the file-system root enter the index, and [current]
    is the buffer's file. *)
Lemma follow_scenario :
  ∃ new_state,
    result_of (Demo.oracle (Demo.world 0 1 [] ∅ None))
      (@a_follow (Demo.collaborators Demo.rows)
         (Demo.state {["/proj"]} ∅ None) Demo.settings) []
    = Some (new_stage new_state)
    ∧ State.index new_state = {["/proj"; "/proj/src"; "/proj/src/lib"]}
    ∧ State.current new_state = Some "/proj/src/lib/x.py".
Proof.
  destruct (@follow_expands_ancestors (Demo.collaborators Demo.rows)
              (Demo.oracle (Demo.world 0 1 [] ∅ None)) []
              (Demo.state {["/proj"]} ∅ None) Demo.settings
              "/proj/src/lib/x.py" eq_refl) as [Hunder _].
  destruct Hunder as (new_state & Hresult & Hindex & Hcurrent);
    [discriminate | reflexivity |].
  exists new_state. split; [done |]. split; [| done].
  rewrite Hindex. reflexivity.
Defined.

(** Delete with the selection [{"/proj/dir", "/proj/dir/file.txt"}]: the
    paths unify to [{"/proj/dir"}], the list shown has one entry; the
    answer "no" (2) ends the handler with no stage and no side effect;
    after the answer "yes" (1) [/proj/dir] is removed, the buffers of the
    two selected paths are closed and the selection is empty.  With
    nothing selected, delete works on the row of the cursor
    ([/proj/dir]), and in visual mode trash works on the rows between the
    marks ([/proj/dir] and [/proj/dir/file.txt], unified to
    [/proj/dir]). *)
Lemma delete_scenario :
  let selected :=
    Demo.state {["/proj"]} {["/proj/dir"; "/proj/dir/file.txt"]} None in
  let bare := Demo.state {["/proj"]} ∅ None in
  let ask :=
    confirm
      (@LANG (Demo.collaborators Demo.rows) "ask_trash"
         [("linesep", linesep); ("display_paths", "dir/")])
      (@LANG (Demo.collaborators Demo.rows) "ask_yesno"
         [("linesep", linesep)]) 2 in
  let no := Demo.oracle (Demo.world 4 2 [] ∅ None) in
  let yes := Demo.oracle (Demo.world 4 1 [] ∅ None) in
  let marked :=
    Demo.oracle
      (Demo.mk true (5, 0) (5, 6) "/proj/src/lib/x.py" 1 [] ∅
         {["/proj"; "/proj/dir"]} None) in
  unify_ancestors {["/proj/dir"; "/proj/dir/file.txt"]} = {["/proj/dir"]}
  ∧ length
      (result_of no
         (@delete_display_list (Demo.collaborators Demo.rows) selected
            ["/proj/dir"]) [])
    = 1%nat
  ∧ result_of no
      (@c_delete (Demo.collaborators Demo.rows) selected Demo.settings false)
      []
    = None
  ∧ side_effects
      (trace_of no
         (@c_delete (Demo.collaborators Demo.rows) selected Demo.settings
            false) [])
    = []
  ∧ run yes
      (@c_delete (Demo.collaborators Demo.rows) selected Demo.settings false)
      []
    = ([Ev (isdir "/proj/dir") true; Ev ask 1;
        Ev (remove ["/proj/dir"]) None;
        Ev (kill_buffers {["/proj/dir"; "/proj/dir/file.txt"]}) ()],
       Some (new_stage bare))
  ∧ run yes
      (@c_delete (Demo.collaborators Demo.rows) bare Demo.settings false) []
    = ([Ev win_get_cursor (5, 0); Ev (isdir "/proj/dir") true; Ev ask 1;
        Ev (remove ["/proj/dir"]) None;
        Ev (kill_buffers {["/proj/dir"]}) ()],
       Some (new_stage bare))
  ∧ run marked
      (@c_trash (Demo.collaborators Demo.rows) bare Demo.settings true) []
    = ([Ev buf_get_marks (5, 6); Ev (isdir "/proj/dir") true; Ev ask 1;
        Ev (trash ["/proj/dir"]) None;
        Ev (kill_buffers {["/proj/dir"; "/proj/dir/file.txt"]}) ()],
       Some (new_stage bare)).
Proof.
  intros selected bare ask no yes marked.
  pose proof (@delete_confirms_unified_paths (Demo.collaborators Demo.rows)
                no [] selected Demo.settings false remove) as Hno.
  pose proof (@delete_confirms_unified_paths (Demo.collaborators Demo.rows)
                yes [] selected Demo.settings false remove) as Hyes.
  pose proof (@delete_confirms_unified_paths (Demo.collaborators Demo.rows)
                yes [] bare Demo.settings false remove) as Hcursor.
  pose proof (@delete_confirms_unified_paths (Demo.collaborators Demo.rows)
                marked [] bare Demo.settings true trash) as Hmarked.
  cbv zeta in Hno, Hyes, Hcursor, Hmarked.
  destruct Hno as (_ & _ & _ & Hquiet & Hlength & _ & Hno).
  destruct Hyes as (_ & _ & _ & _ & _ & _ & Hyes).
  destruct Hcursor as (_ & _ & _ & _ & _ & _ & Hcursor).
  destruct Hmarked as (_ & _ & _ & _ & _ & _ & Hmarked).
  destruct Hno as (_ & Hdecline & _); [by_computation |].
  destruct Hyes as (_ & _ & Hyes); [by_computation |].
  destruct Hcursor as (_ & _ & Hcursor); [by_computation |].
  destruct Hmarked as (_ & _ & Hmarked); [by_computation |].
  specialize (Hdecline ltac:(discriminate)).
  destruct (Hyes eq_refl) as [_ Hremoved].
  destruct (Hremoved eq_refl) as [Hrun_yes _].
  destruct (Hcursor eq_refl) as [_ Hcursor_removed].
  destruct (Hcursor_removed eq_refl) as [Hrun_cursor _].
  destruct (Hmarked eq_refl) as [_ Htrashed].
  destruct (Htrashed eq_refl) as [Hrun_marked _].
  split; [reflexivity |]. split; [exact Hlength |].
  split; [| split; [| split; [| split]]].
  - unfold result_of, c_delete. by rewrite Hdecline.
  - unfold trace_of, c_delete. rewrite Hdecline. exact Hquiet.
  - unfold c_delete. rewrite Hrun_yes. vm_compute. reflexivity.
  - unfold c_delete. rewrite Hrun_cursor. vm_compute. reflexivity.
  - unfold c_trash. rewrite Hrun_marked. vm_compute. reflexivity.
Defined.

(** Cut of the selection [{"/proj/a.txt"}] with the cursor on the folder
    [/proj/dst]: the operation is [/proj/a.txt -> /proj/dst/a.txt]; the
    destination exists, the user is prompted for another one and answers
    nothing: the handler gives no stage and has no side effect. *)
Lemma cut_collision_declined :
  pre_op (elements (unify_ancestors {["/proj/a.txt"]}))
         (Demo.dir_node "/proj/dst")
  = [("/proj/a.txt", "/proj/dst/a.txt")]
  ∧ omap prompted
      (trace_of (Demo.oracle (Demo.world 3 1 [None] {["/proj/dst/a.txt"]}
                                None))
         (@c_cut (Demo.collaborators Demo.rows)
            (Demo.state {["/proj"]} {["/proj/a.txt"]} None) Demo.settings)
         [])
    = ["/proj/dst/a.txt"]
  ∧ result_of (Demo.oracle (Demo.world 3 1 [None] {["/proj/dst/a.txt"]}
                              None))
      (@c_cut (Demo.collaborators Demo.rows)
         (Demo.state {["/proj"]} {["/proj/a.txt"]} None) Demo.settings) []
    = None
  ∧ side_effects
      (trace_of (Demo.oracle (Demo.world 3 1 [None] {["/proj/dst/a.txt"]}
                                None))
         (@c_cut (Demo.collaborators Demo.rows)
            (Demo.state {["/proj"]} {["/proj/a.txt"]} None) Demo.settings)
         [])
    = [].
Proof.
  pose proof (@operation_destinations_and_prompts
                (Demo.collaborators Demo.rows)
                (Demo.oracle (Demo.world 3 1 [None] {["/proj/dst/a.txt"]}
                                None)) []
                (Demo.state {["/proj"]} {["/proj/a.txt"]} None)
                Demo.settings
                (@LANG (Demo.collaborators Demo.rows) "cut" []) cut
                (Demo.dir_node "/proj/dst") eq_refl) as Hcut.
  cbv zeta in Hcut.
  destruct Hcut as (_ & _ & _ & _ & _ & Hquiet & _ & Habort);
    [by_computation |].
  specialize (Habort ltac:(by_computation)).
  split; [reflexivity |].
  unfold result_of, trace_of, c_cut. rewrite Habort.
  split; [reflexivity |]. split; [reflexivity |]. exact Hquiet.
Defined.

(** Cut of the selection [{"/proj/dir", "/proj/dir/file.txt"}] onto the
    folder [/proj/dst]: the selected path [/proj/dir/file.txt] is given
    no destination; the batch handed to [cut] holds [/proj/dir] alone. *)
Lemma cut_skips_nested_selection :
  "/proj/dir/file.txt"
    ∈ State.selection
        (Demo.state {["/proj"]} {["/proj/dir"; "/proj/dir/file.txt"]} None)
  ∧ omap moved
      (trace_of (Demo.oracle (Demo.world 3 1 [] ∅ None))
         (@c_cut (Demo.collaborators Demo.rows)
            (Demo.state {["/proj"]} {["/proj/dir"; "/proj/dir/file.txt"]}
               None)
            Demo.settings) [])
    = [[("/proj/dir", "/proj/dst/dir")]]
  ∧ (∀ dst, ("/proj/dir/file.txt", dst) ∉ [("/proj/dir", "/proj/dst/dir")]).
Proof.
  split; [by_computation |]. split; [reflexivity |].
  intros dst [[=] | []%elem_of_nil]%elem_of_cons.
Defined.

(** Delete of [/proj/dir], confirmed, when the file system raises
    [boom]: the error is written, then the refresh runs, and the stage
    returned is the one of the refresh. *)
Lemma delete_failure_scenario :
  ∃ stage,
    run (Demo.oracle (Demo.world 4 1 [] {["/proj"]} (Some "boom")))
      (@c_delete (Demo.collaborators Demo.rows)
         (Demo.state {["/proj"; "/proj/gone"]} {["/proj/dir"]} None)
         Demo.settings false) []
    = ([Ev (isdir "/proj/dir") true;
        Ev (confirm
              (@LANG (Demo.collaborators Demo.rows) "ask_trash"
                 [("linesep", linesep); ("display_paths", "dir/")])
              (@LANG (Demo.collaborators Demo.rows) "ask_yesno"
                 [("linesep", linesep)]) 2) 1;
        Ev (remove ["/proj/dir"]) (Some "boom");
        Ev (write "boom" true) ();
        Ev find_current_buffer_name "/proj/src/lib/x.py";
        Ev (path_exists "/proj/gone") false;
        Ev (path_exists "/proj") true;
        Ev (path_exists "/proj/dir") false;
        Ev quickfix (QuickFix.mk ∅);
        Ev (update (Demo.dir_node "/proj") {["/proj"]} (Some {["/proj"]}))
           (Demo.dir_node "/proj")],
       Some stage)
    ∧ result_of (Demo.oracle (Demo.world 4 1 [] {["/proj"]} (Some "boom")))
        (@_refresh (Demo.collaborators Demo.rows)
           (Demo.state {["/proj"; "/proj/gone"]} {["/proj/dir"]} None)
           Demo.settings false)
        [Ev (isdir "/proj/dir") true;
         Ev (confirm
               (@LANG (Demo.collaborators Demo.rows) "ask_trash"
                  [("linesep", linesep); ("display_paths", "dir/")])
               (@LANG (Demo.collaborators Demo.rows) "ask_yesno"
                  [("linesep", linesep)]) 2) 1;
         Ev (remove ["/proj/dir"]) (Some "boom");
         Ev (write "boom" true) ()]
      = stage
    ∧ State.index (Stage.state stage) = {["/proj"]}
    ∧ State.selection (Stage.state stage) = ∅.
Proof.
  destruct (@mutation_failure_reports_and_refreshes
              (Demo.collaborators Demo.rows)
              (Demo.oracle (Demo.world 4 1 [] {["/proj"]} (Some "boom")))
              (Demo.state {["/proj"; "/proj/gone"]} {["/proj/dir"]} None)
              Demo.settings
              (@c_delete (Demo.collaborators Demo.rows)
                 (Demo.state {["/proj"; "/proj/gone"]} {["/proj/dir"]} None)
                 Demo.settings false)
              []
              [Ev (isdir "/proj/dir") true;
               Ev (confirm
                     (@LANG (Demo.collaborators Demo.rows) "ask_trash"
                        [("linesep", linesep); ("display_paths", "dir/")])
                     (@LANG (Demo.collaborators Demo.rows) "ask_yesno"
                        [("linesep", linesep)]) 2) 1]
              (Ev (remove ["/proj/dir"]) (Some "boom"))
              [Ev (write "boom" true) ();
               Ev find_current_buffer_name "/proj/src/lib/x.py";
               Ev (path_exists "/proj/gone") false;
               Ev (path_exists "/proj") true;
               Ev (path_exists "/proj/dir") false;
               Ev quickfix (QuickFix.mk ∅);
               Ev (update (Demo.dir_node "/proj") {["/proj"]}
                     (Some {["/proj"]}))
                  (Demo.dir_node "/proj")]
              (result_of
                 (Demo.oracle (Demo.world 4 1 [] {["/proj"]} (Some "boom")))
                 (@c_delete (Demo.collaborators Demo.rows)
                    (Demo.state {["/proj"; "/proj/gone"]} {["/proj/dir"]}
                       None)
                    Demo.settings false) [])
              "boom")
    as (stage & Hresult & Hrefresh & _).
  - constructor.
  - vm_compute. reflexivity.
  - simpl. lia.
  - repeat constructor.
  - reflexivity.
  - exists stage. split; [| split; [| split]].
    + rewrite <- Hresult. vm_compute. reflexivity.
    + apply (f_equal snd) in Hrefresh. exact Hrefresh.
    + apply (f_equal snd) in Hrefresh. simpl in Hrefresh.
      rewrite <- Hrefresh. vm_compute. reflexivity.
    + apply (f_equal snd) in Hrefresh. simpl in Hrefresh.
      rewrite <- Hrefresh. vm_compute. reflexivity.
Defined.

(** * Further properties of the handlers *)

Section MoreProperties.

Context `{Collaborators}.

(** ** Without a node under the cursor *)

(** X1: when no node is under the cursor (the sidebar is not the current
    window, or the row shows nothing), [_click], [c_collapse] and
    [c_rename] return no stage and make no call beyond that query. *)
Theorem no_node_no_action (o : Oracle) tr state settings click_type :
  result_of o (_index state) tr = None →
  run o (_click state settings click_type) tr
  = (trace_of o (_index state) tr, None)
  ∧ run o (c_collapse state settings) tr
    = (trace_of o (_index state) tr, None)
  ∧ run o (c_rename state settings) tr
    = (trace_of o (_index state) tr, None)
  ∧ side_effects (fresh o (_index state) tr) = [].
Proof.
  intros Hnode. unfold _click, c_collapse, c_rename.
  rewrite !run_bind, Hnode.
  repeat split. apply quiet_fresh, quiet_index.
Qed.

(** X2: a click on a dead link, whatever else the node is and whether or
    not a filter is set, writes the [dead_link] error and returns no
    stage. *)
Theorem click_dead_link (o : Oracle) tr state settings click_type node :
  result_of o (_index state) tr = Some node →
  orphan_link ∈ Node.mode node →
  let tr0 := trace_of o (_index state) tr in
  let message := write (LANG "dead_link" [("name", Node.name node)]) true in
  run o (_click state settings click_type) tr
  = (tr0 ++ [Ev message (o _ tr0 message)], None).
Proof.
  intros Hnode Horphan tr0 message. unfold _click.
  rewrite run_bind, Hnode. fold tr0.
  by rewrite (bool_decide_eq_true_2 _ Horphan).
Qed.

(** X3: [c_collapse] on the root, or on a file that lies directly in the
    root, returns no stage and makes no call beyond the cursor query. *)
Theorem collapse_root_refused (o : Oracle) tr state settings node :
  result_of o (_index state) tr = Some node →
  (if bool_decide (folder ∈ Node.mode node) then Node.path node
   else dirname (Node.path node)) = Node.path (State.root state) →
  run o (c_collapse state settings) tr = (trace_of o (_index state) tr, None).
Proof.
  intros Hnode Hroot. unfold c_collapse. rewrite run_bind, Hnode.
  rewrite bool_decide_eq_false_2; [done |]. by intros ?.
Qed.

(** ** New and rename: names that are refused *)

(** X4: [c_new] takes the root as the node when none is under the
    cursor.  An empty answer to the name prompt ends it with no stage;
    a name whose path exists is reported as an error and the state is
    returned unchanged; in both cases nothing is created. *)
Theorem new_refuses_empty_and_existing (o : Oracle) tr state settings :
  let tr0 := trace_of o (_index state) tr in
  let node := default (State.root state) (result_of o (_index state) tr) in
  let parent :=
    if bool_decide (folder ∈ Node.mode node) then Node.path node
    else dirname (Node.path node) in
  let prompt := input (LANG "pencil" []) "" in
  let answer := o _ tr0 prompt in
  let tr1 := tr0 ++ [Ev prompt answer] in
  (truthy answer = false → run o (c_new state settings) tr = (tr1, None))
  ∧ (∀ child, answer = Some child → child ≠ "" →
     let path := join parent child in
     let complaint := write (LANG "already_exists" [("name", path)]) true in
     let tr2 := tr1 ++ [Ev (path_exists path) true] in
     o _ tr1 (path_exists path) = true →
     run o (c_new state settings) tr
     = (tr2 ++ [Ev complaint (o _ tr2 complaint)], Some (new_stage state)))
  ∧ side_effects (drop (length tr) tr1) = [].
Proof.
  intros tr0 node parent prompt answer tr1.
  split; [| split].
  - intros Hanswer. unfold c_new. rewrite run_bind. simpl.
    subst tr1. unfold answer, prompt, tr0 in *.
    destruct (o _ _ (input _ _)) as [child |]; [| done].
    destruct child; [done | discriminate].
  - intros child Hchild Hne path complaint tr2 Hexists.
    assert (nonempty child = true) as Hnonempty by (by destruct child).
    unfold c_new. rewrite run_bind. simpl.
    subst tr2 tr1 complaint path parent node.
    unfold answer, prompt, tr0, is_dir in *.
    rewrite Hchild in Hexists. rewrite Hchild, Hnonempty. simpl.
    rewrite Hexists. done.
  - subst tr1 tr0. rewrite (run_extends o (_index state)).
    rewrite <- (assoc_L (++)), drop_app_length, side_effects_app.
    by rewrite (quiet_fresh _ _ _ (quiet_index state)).
Qed.

(** X5: [c_rename] offers the node's path relative to the root.  An empty
    answer ends it with no stage; a name whose path, joined to the root,
    exists is reported as an error and the state is returned unchanged;
    in both cases nothing is renamed. *)
Theorem rename_refuses_empty_and_existing (o : Oracle) tr state settings
    node :
  result_of o (_index state) tr = Some node →
  let tr0 := trace_of o (_index state) tr in
  let parent := Node.path (State.root state) in
  let prompt := input (LANG "pencil" []) (relpath (Node.path node) parent) in
  let answer := o _ tr0 prompt in
  let tr1 := tr0 ++ [Ev prompt answer] in
  (truthy answer = false → run o (c_rename state settings) tr = (tr1, None))
  ∧ (∀ child, answer = Some child → child ≠ "" →
     let new_name := join parent child in
     let complaint :=
       write (LANG "already_exists" [("name", new_name)]) true in
     let tr2 := tr1 ++ [Ev (path_exists new_name) true] in
     o _ tr1 (path_exists new_name) = true →
     run o (c_rename state settings) tr
     = (tr2 ++ [Ev complaint (o _ tr2 complaint)], Some (new_stage state)))
  ∧ side_effects (drop (length tr) tr1) = [].
Proof.
  intros Hnode tr0 parent prompt answer tr1.
  split; [| split].
  - intros Hanswer. unfold c_rename. rewrite run_bind, Hnode. simpl.
    subst tr1. unfold answer, prompt, tr0, parent in *.
    destruct (o _ _ (input _ _)) as [child |]; [| done].
    destruct child; [done | discriminate].
  - intros child Hchild Hne new_name complaint tr2 Hexists.
    assert (nonempty child = true) as Hnonempty by (by destruct child).
    unfold c_rename. rewrite run_bind, Hnode. simpl.
    subst tr2 tr1 complaint new_name.
    unfold answer, prompt, tr0, parent in *.
    rewrite Hchild in Hexists. rewrite Hchild, Hnonempty. simpl.
    rewrite Hexists. done.
  - subst tr1 tr0. rewrite (run_extends o (_index state)).
    rewrite <- (assoc_L (++)), drop_app_length, side_effects_app.
    by rewrite (quiet_fresh _ _ _ (quiet_index state)).
Qed.

(** ** Cut and copy: what stops the batch *)

(** X6: with an empty (unified) selection or without a node under the
    cursor, [_operation] writes the [nothing_select] error and returns no
    stage; nothing is asked and nothing is moved. *)
Theorem operation_nothing_selected (o : Oracle) tr state settings op_name
    (action : list (Path * Path) → Eff (option Exn)) :
  unify_ancestors (State.selection state) = ∅
  ∨ result_of o (_index state) tr = None →
  let tr0 := trace_of o (_index state) tr in
  let complaint := write (LANG "nothing_select" []) true in
  run o (_operation state settings op_name action) tr
  = (tr0 ++ [Ev complaint (o _ tr0 complaint)], None)
  ∧ side_effects (fresh o (_operation state settings op_name action) tr) = [].
Proof.
  intros Hnothing tr0 complaint.
  assert (run o (_operation state settings op_name action) tr
          = (tr0 ++ [Ev complaint (o _ tr0 complaint)], None)) as Hrun.
  { unfold _operation. rewrite run_bind. fold tr0.
    destruct Hnothing as [Hempty | Hnode].
    - rewrite Hempty, elements_empty.
      by destruct (result_of o (_index state) tr).
    - rewrite Hnode. by destruct (elements _). }
  split; [done |].
  unfold fresh, trace_of. rewrite Hrun. simpl. subst tr0.
  rewrite (run_extends o (_index state)).
  rewrite <- (assoc_L (++)), drop_app_length, side_effects_app.
  by rewrite (quiet_fresh _ _ _ (quiet_index state)).
Qed.

Lemma quiet_resolve_collisions pre_existing operations :
  quiet (resolve_collisions pre_existing operations).
Proof.
  unfold resolve_collisions. destruct pre_existing; [constructor |].
  apply quiet_bind; [apply quiet_ask_renames |].
  intros [renamed |]; [| constructor].
  apply quiet_bind; [| constructor].
  unfold p_pre. apply quiet_filter_by. intros a. by apply quiet_call.
Qed.

Lemma quiet_p_pre operations : quiet (p_pre operations).
Proof.
  unfold p_pre. apply quiet_filter_by. intros a. by apply quiet_call.
Qed.

(** [_operation] with a node and a selection, after the first look at the
    destinations. *)
Lemma run_operation_resolved (o : Oracle) tr state settings op_name
    (action : list (Path * Path) → Eff (option Exn)) node :
  result_of o (_index state) tr = Some node →
  unify_ancestors (State.selection state) ≠ ∅ →
  let tr0 := trace_of o (_index state) tr in
  let operations :=
    pre_op (elements (unify_ancestors (State.selection state))) node in
  let pre_existing := result_of o (p_pre operations) tr0 in
  let tr1 := trace_of o (p_pre operations) tr0 in
  let resolved :=
    result_of o (resolve_collisions pre_existing operations) tr1 in
  let tr2 := trace_of o (resolve_collisions pre_existing operations) tr1 in
  run o (_operation state settings op_name action) tr
  = run o
      (match resolved with
       | None => Ret None
       | Some (operations, (_ :: _) as pre_existing) =>
           let* shown :=
             traverse (display_pair state)
               (sorted (λ t, strxfrm (fst t)) pre_existing) in
           let msg := str_join ", " shown in
           let* _ :=
             call (write ("⚠️  -- " +:+ op_name
                          +:+ ": path(s) already exist! :: " +:+ msg)
                         true) in
           Ret None
       | Some (operations, []) =>
           let* shown :=
             traverse (display_pair state)
               (sorted (λ t, strxfrm (fst t)) operations) in
           let msg := str_join linesep shown in
           let* ans := ask_yesno (op_name +:+ linesep +:+ msg +:+ "?") in
           if ans : bool then
             let* raised := call (action operations) in
             match raised with
             | Some e =>
                 let* _ := call (write e true) in
                 let* stage := _refresh state settings false in
                 Ret (Some stage)
             | None =>
                 let paths : gset Path :=
                   list_to_set
                     (dirname <$> (operations.*1 ++ operations.*2)) in
                 let index := State.index state ∪ paths in
                 let* new_state :=
                   forward state settings
                     [kw_index index; kw_selection ∅; kw_paths paths] in
                 let* _ := call (kill_buffers (State.selection state)) in
                 Ret (Some (new_stage new_state))
             end
           else Ret None
       end) tr2
  ∧ side_effects (drop (length tr) tr2) = [].
Proof.
  intros Hnode Hunified. cbn zeta. split.
  - unfold _operation. rewrite run_bind, Hnode.
    destruct (elements (unify_ancestors (State.selection state)))
      as [| u unified] eqn:Hu.
    { by apply elements_empty_inv, leibniz_equiv in Hu. }
    rewrite run_bind.
    match goal with
    | |- run o (bind ?p ?f) ?t = _ =>
        change p with
          (resolve_collisions
             (result_of o (p_pre (pre_op (u :: unified) node))
                (trace_of o (_index state) tr))
             (pre_op (u :: unified) node))
    end.
    by rewrite run_bind.
  - rewrite (run_extends o (resolve_collisions _ _)).
    rewrite (run_extends o (p_pre _)).
    rewrite (run_extends o (_index _)).
    rewrite <- !(assoc_L (++)), drop_app_length, !side_effects_app.
    rewrite (quiet_fresh _ _ _ (quiet_index _)).
    rewrite (quiet_fresh _ _ _ (quiet_p_pre _)).
    by rewrite (quiet_fresh _ _ _ (quiet_resolve_collisions _ _)).
Qed.

Lemma elem_of_fresh_bind_l {A B : Type} (o : Oracle) (p : Prog A)
    (f : A → Prog B) tr ev :
  ev ∈ fresh o p tr → ev ∈ fresh o (bind p f) tr.
Proof. rewrite fresh_bind, elem_of_app. by left. Qed.

Lemma elem_of_fresh_bind_r {A B : Type} (o : Oracle) (p : Prog A)
    (f : A → Prog B) tr ev :
  ev ∈ fresh o (f (result_of o p tr)) (trace_of o p tr) →
  ev ∈ fresh o (bind p f) tr.
Proof. rewrite fresh_bind, elem_of_app. by right. Qed.

(** Every destination of an operation that [p_pre] does not report was
    answered not to exist. *)
Lemma p_pre_empty_all_free (o : Oracle) operations tr d :
  result_of o (p_pre operations) tr = [] →
  d ∈ operations.*2 →
  Ev (path_exists d) false ∈ fresh o (p_pre operations) tr.
Proof.
  intros Hnone ([s d'] & -> & Hsd)%list_elem_of_fmap.
  apply (filter_by_answers o (λ sd, path_exists sd.2) operations tr (s, d'));
    [done |].
  unfold p_pre in Hnone. rewrite Hnone. apply not_elem_of_nil.
Qed.

(** X7: when, after the prompts, a destination of the batch still exists,
    [_operation] writes a warning that lists the collisions and returns
    no stage: no confirmation is shown and nothing is moved. *)
Theorem operation_still_colliding (o : Oracle) tr state settings op_name
    (action : list (Path * Path) → Eff (option Exn)) node operations' sd
    still :
  result_of o (_index state) tr = Some node →
  unify_ancestors (State.selection state) ≠ ∅ →
  let tr0 := trace_of o (_index state) tr in
  let operations :=
    pre_op (elements (unify_ancestors (State.selection state))) node in
  let pre_existing := result_of o (p_pre operations) tr0 in
  let tr1 := trace_of o (p_pre operations) tr0 in
  let tr2 := trace_of o (resolve_collisions pre_existing operations) tr1 in
  let shown :=
    result_of o
      (traverse (display_pair state)
         (sorted (λ t, strxfrm (fst t)) (sd :: still))) tr2 in
  let tr3 :=
    trace_of o
      (traverse (display_pair state)
         (sorted (λ t, strxfrm (fst t)) (sd :: still))) tr2 in
  let warning :=
    write ("⚠️  -- " +:+ op_name +:+ ": path(s) already exist! :: "
           +:+ str_join ", " shown) true in
  result_of o (resolve_collisions pre_existing operations) tr1
  = Some (operations', sd :: still) →
  run o (_operation state settings op_name action) tr
  = (tr3 ++ [Ev warning (o _ tr3 warning)], None)
  ∧ side_effects (fresh o (_operation state settings op_name action) tr)
    = [].
Proof.
  intros Hnode Hunified tr0 operations pre_existing tr1 tr2 shown tr3 warning
    Hresolved.
  destruct (run_operation_resolved o tr state settings op_name action node
              Hnode Hunified) as [Hrun Hquiet].
  cbn zeta in Hrun, Hquiet.
  fold tr0 operations pre_existing tr1 tr2 in Hrun, Hquiet.
  rewrite Hresolved in Hrun. rewrite run_bind in Hrun.
  fold shown tr3 in Hrun.
  assert (run o (_operation state settings op_name action) tr
          = (tr3 ++ [Ev warning (o _ tr3 warning)], None)) as Hfinal
    by (by rewrite Hrun).
  split; [done |].
  unfold fresh, trace_of. rewrite Hfinal. simpl.
  assert (∃ suffix, tr2 = tr ++ suffix) as [suffix Htr2].
  { subst tr2 tr1 tr0.
    rewrite (run_extends o (resolve_collisions _ _)).
    rewrite (run_extends o (p_pre _)).
    rewrite (run_extends o (_index _)).
    rewrite <- !(assoc_L (++)). by eexists. }
  subst tr3. rewrite (run_extends o (traverse _ _)).
  rewrite Htr2 in Hquiet |- *.
  rewrite drop_app_length in Hquiet.
  rewrite <- !(assoc_L (++)), drop_app_length, !side_effects_app, Hquiet.
  rewrite quiet_fresh; [done |].
  apply quiet_traverse, quiet_display_pair.
Qed.

Lemma drop_fresh_three {A B C : Type} (o : Oracle) (p0 : Prog A)
    (p1 : Prog B) (p2 : Prog C) tr :
  let t0 := trace_of o p0 tr in
  let t1 := trace_of o p1 t0 in
  drop (length tr) (trace_of o p2 t1)
  = fresh o p0 tr ++ fresh o p1 t0 ++ fresh o p2 t1.
Proof.
  intros t0 t1.
  pose proof (run_extends o p0 tr) as E0.
  pose proof (run_extends o p1 t0) as E1.
  pose proof (run_extends o p2 t1) as E2.
  change (t0 = tr ++ fresh o p0 tr) in E0.
  change (t1 = t0 ++ fresh o p1 t0) in E1.
  generalize dependent (fresh o p2 t1). intros F2 E2.
  generalize dependent (fresh o p1 t0). intros F1 E1.
  rewrite E2, E1, E0, <- !(assoc_L (++)). apply drop_app_length.
Qed.

(** When the collisions are resolved, every destination of the batch was
    answered not to exist, in the first look or in the second. *)
Lemma resolved_destinations_free (o : Oracle) operations tr operations' d :
  let pre_existing := result_of o (p_pre operations) tr in
  let tr1 := trace_of o (p_pre operations) tr in
  result_of o (resolve_collisions pre_existing operations) tr1
  = Some (operations', []) →
  d ∈ operations'.*2 →
  Ev (path_exists d) false
  ∈ fresh o (p_pre operations) tr
    ++ fresh o (resolve_collisions pre_existing operations) tr1.
Proof.
  intros pre_existing tr1 Hresolved Hd. apply elem_of_app.
  unfold resolve_collisions in *.
  destruct pre_existing as [| sd pre_existing'] eqn:Hpre.
  - left. unfold result_of in Hresolved. simpl in Hresolved.
    injection Hresolved as <-. by apply p_pre_empty_all_free.
  - right. rewrite result_of_bind in Hresolved.
    apply elem_of_fresh_bind_r.
    destruct (result_of o (ask_renames (sd :: pre_existing') operations) tr1)
      as [renamed |]; [| done].
    rewrite result_of_bind in Hresolved. unfold result_of at 1 in Hresolved.
    simpl in Hresolved. injection Hresolved as -> Hnone.
    apply elem_of_fresh_bind_l. by apply p_pre_empty_all_free.
Qed.

Lemma run_ask_yesno (o : Oracle) question tr :
  let ask := confirm question (LANG "ask_yesno" [("linesep", linesep)]) 2 in
  run o (ask_yesno question) tr
  = (tr ++ [Ev ask (o _ tr ask)], bool_decide (o _ tr ask = 1)).
Proof. reflexivity. Qed.

(** X8: once no destination of the batch exists, [_operation] asks for
    one confirmation of the whole batch.  Up to and including that
    question no call has a side effect, and every destination of the
    batch has been answered not to exist; an answer other than 1 ends
    the handler with no stage. *)
Theorem operation_confirms_batch (o : Oracle) tr state settings op_name
    (action : list (Path * Path) → Eff (option Exn)) node operations' :
  result_of o (_index state) tr = Some node →
  unify_ancestors (State.selection state) ≠ ∅ →
  let tr0 := trace_of o (_index state) tr in
  let operations :=
    pre_op (elements (unify_ancestors (State.selection state))) node in
  let pre_existing := result_of o (p_pre operations) tr0 in
  let tr1 := trace_of o (p_pre operations) tr0 in
  let tr2 := trace_of o (resolve_collisions pre_existing operations) tr1 in
  let listing :=
    traverse (display_pair state)
      (sorted (λ t, strxfrm (fst t)) operations') in
  let tr3 := trace_of o listing tr2 in
  let ask :=
    confirm (op_name +:+ linesep
             +:+ str_join linesep (result_of o listing tr2) +:+ "?")
            (LANG "ask_yesno" [("linesep", linesep)]) 2 in
  let resp := o _ tr3 ask in
  let tr4 := tr3 ++ [Ev ask resp] in
  result_of o (resolve_collisions pre_existing operations) tr1
  = Some (operations', []) →
  (∃ rest,
     trace_of o (_operation state settings op_name action) tr = tr4 ++ rest)
  ∧ side_effects (drop (length tr) tr4) = []
  ∧ (∀ d, d ∈ operations'.*2 →
          Ev (path_exists d) false ∈ drop (length tr) tr2)
  ∧ (resp ≠ 1 →
     run o (_operation state settings op_name action) tr = (tr4, None)).
Proof.
  intros Hnode Hunified tr0 operations pre_existing tr1 tr2 listing tr3 ask
    resp tr4 Hresolved.
  destruct (run_operation_resolved o tr state settings op_name action node
              Hnode Hunified) as [Hrun Hquiet].
  cbn zeta in Hrun, Hquiet.
  fold tr0 operations pre_existing tr1 tr2 in Hrun, Hquiet.
  rewrite Hresolved in Hrun. rewrite run_bind in Hrun.
  fold listing tr3 in Hrun.
  rewrite run_bind in Hrun. unfold result_of, trace_of in Hrun.
  rewrite run_ask_yesno in Hrun. cbn [fst snd] in Hrun.
  fold listing in Hrun. fold (trace_of o listing tr2) in Hrun.
  fold (result_of o listing tr2) in Hrun. fold tr3 ask resp tr4 in Hrun.
  assert (tr2 = tr ++ drop (length tr) tr2) as Htr2.
  { subst tr2 tr1 tr0.
    rewrite (run_extends o (resolve_collisions _ _)).
    rewrite (run_extends o (p_pre _)).
    rewrite (run_extends o (_index _)).
    by rewrite <- !(assoc_L (++)), drop_app_length. }
  split; [| split; [| split]].
  - unfold trace_of at 1. rewrite Hrun. apply run_suffix.
  - subst tr4 tr3. rewrite (run_extends o listing).
    rewrite Htr2, <- !(assoc_L (++)), drop_app_length, !side_effects_app.
    rewrite Hquiet. rewrite quiet_fresh; [done |].
    apply quiet_traverse, quiet_display_pair.
  - intros d Hd.
    pose proof (resolved_destinations_free o operations tr0 operations' d
                  Hresolved Hd) as Hfree.
    subst tr2 tr1 tr0. rewrite (drop_fresh_three o (_index state)).
    apply elem_of_app. right. exact Hfree.
  - intros Hresp. rewrite Hrun.
    by rewrite (bool_decide_eq_false_2 _ Hresp).
Qed.

(** X9: when the batch is confirmed and the action does not raise,
    [_operation] returns a state whose selection is empty and whose index
    is the old one joined with the directory of every source and of every
    destination; then the buffers of the selected paths are closed. *)
Theorem operation_success (o : Oracle) tr state settings op_name
    (action : list (Path * Path) → Eff (option Exn)) node operations' :
  result_of o (_index state) tr = Some node →
  unify_ancestors (State.selection state) ≠ ∅ →
  let tr0 := trace_of o (_index state) tr in
  let operations :=
    pre_op (elements (unify_ancestors (State.selection state))) node in
  let pre_existing := result_of o (p_pre operations) tr0 in
  let tr1 := trace_of o (p_pre operations) tr0 in
  let tr2 := trace_of o (resolve_collisions pre_existing operations) tr1 in
  let listing :=
    traverse (display_pair state)
      (sorted (λ t, strxfrm (fst t)) operations') in
  let tr3 := trace_of o listing tr2 in
  let ask :=
    confirm (op_name +:+ linesep
             +:+ str_join linesep (result_of o listing tr2) +:+ "?")
            (LANG "ask_yesno" [("linesep", linesep)]) 2 in
  let tr4 := tr3 ++ [Ev ask 1] in
  result_of o (resolve_collisions pre_existing operations) tr1
  = Some (operations', []) →
  o _ tr3 ask = 1 →
  o _ tr4 (action operations') = None →
  ∃ new_state between closing,
    run o (_operation state settings op_name action) tr
    = (tr4 ++ [Ev (action operations') None] ++ between
           ++ [Ev (kill_buffers (State.selection state)) closing],
       Some (new_stage new_state))
    ∧ State.selection new_state = ∅
    ∧ State.index new_state
      = State.index state
        ∪ list_to_set (dirname <$> (operations'.*1 ++ operations'.*2))
    ∧ mutations between = [].
Proof.
  intros Hnode Hunified tr0 operations pre_existing tr1 tr2 listing tr3 ask
    tr4 Hresolved Hyes Haction.
  destruct (run_operation_resolved o tr state settings op_name action node
              Hnode Hunified) as [Hrun _].
  cbn zeta in Hrun.
  fold tr0 operations pre_existing tr1 tr2 in Hrun.
  rewrite Hresolved in Hrun. rewrite run_bind in Hrun.
  fold listing tr3 in Hrun.
  rewrite run_bind in Hrun. unfold result_of, trace_of in Hrun.
  rewrite run_ask_yesno in Hrun. cbn [fst snd] in Hrun.
  fold listing in Hrun. fold (trace_of o listing tr2) in Hrun.
  fold (result_of o listing tr2) in Hrun. fold tr3 ask in Hrun.
  rewrite Hyes in Hrun. fold tr4 in Hrun. rewrite Hrun.
  rewrite bool_decide_eq_true_2 by done. rewrite run_bind.
  change (result_of o (call (action operations')) tr4)
    with (o _ tr4 (action operations')).
  change (trace_of o (call (action operations')) tr4)
    with (tr4 ++ [Ev (action operations') (o _ tr4 (action operations'))]).
  rewrite Haction. simpl.
  eexists _, [_], _. split; [| split; [| split]].
  - rewrite <- !(assoc_L (++)). reflexivity.
  - reflexivity.
  - reflexivity.
  - reflexivity.
Qed.

Lemma dict_set_keys (d : list (Path * Path)) k v :
  k ∈ d.*1 → (dict_set d k v).*1 = d.*1.
Proof.
  induction d as [| [k' v'] d IH]; [by intros ?%elem_of_nil |].
  intros Hk. simpl. destruct (decide (k' = k)) as [-> | Hne]; [done |].
  simpl. f_equal. apply IH.
  apply elem_of_cons in Hk as [-> | Hk]; [done | exact Hk].
Qed.

Lemma dict_set_other (d : list (Path * Path)) k v s x :
  (s, x) ∈ d → s ≠ k → (s, x) ∈ dict_set d k v.
Proof.
  induction d as [| [k' v'] d IH]; [by intros ?%elem_of_nil |].
  intros Hin Hne. simpl. destruct (decide (k' = k)) as [-> | Hk].
  - apply elem_of_cons in Hin as [[= -> ->] | Hin]; [done | by right].
  - apply elem_of_cons in Hin as [[= -> ->] | Hin]; [by left |].
    right. by apply IH.
Qed.

Lemma ask_renames_keeps_sources (o : Oracle) pre_existing operations tr
    renamed :
  (∀ s, s ∈ pre_existing.*1 → s ∈ operations.*1) →
  result_of o (ask_renames pre_existing operations) tr = Some renamed →
  renamed.*1 = operations.*1
  ∧ ∀ s d, (s, d) ∈ operations → s ∉ pre_existing.*1 → (s, d) ∈ renamed.
Proof.
  revert operations tr.
  induction pre_existing as [| [source dest] rest IH];
    intros operations tr Hsub Hres.
  - unfold result_of in Hres. simpl in Hres. injection Hres as <-. done.
  - unfold result_of in Hres. cbn [ask_renames bind call run] in Hres.
    destruct (truthy _) eqn:Hx; [| done].
    assert (source ∈ operations.*1) as Hsource by (apply Hsub; by left).
    apply IH in Hres as [Hkeys Hother].
    + rewrite dict_set_keys in Hkeys by done. split; [done |].
      intros s d Hin Hnot. apply Hother.
      * apply dict_set_other; [done |]. intros ->. apply Hnot. by left.
      * intros Hs. apply Hnot. by right.
    + intros s Hs. rewrite dict_set_keys by done. apply Hsub. by right.
Qed.

(** X10: answering the prompts changes destinations only: the batch that
    comes out of the prompts has the sources of the computed operations,
    in their order, and an operation that did not collide is in it with
    its computed destination. *)
Theorem renames_keep_sources (o : Oracle) operations tr operations' still :
  let pre_existing := result_of o (p_pre operations) tr in
  let tr1 := trace_of o (p_pre operations) tr in
  result_of o (resolve_collisions pre_existing operations) tr1
  = Some (operations', still) →
  operations'.*1 = operations.*1
  ∧ ∀ s d, (s, d) ∈ operations → s ∉ pre_existing.*1 → (s, d) ∈ operations'.
Proof.
  intros pre_existing tr1 Hresolved. unfold resolve_collisions in Hresolved.
  destruct pre_existing as [| sd pre_existing'] eqn:Hpre.
  - unfold result_of in Hresolved. simpl in Hresolved.
    by injection Hresolved as <- _.
  - rewrite result_of_bind in Hresolved.
    destruct (result_of o (ask_renames (sd :: pre_existing') operations) tr1)
      as [renamed |] eqn:Hrenamed; [| done].
    rewrite result_of_bind in Hresolved. unfold result_of at 1 in Hresolved.
    simpl in Hresolved. injection Hresolved as -> _.
    apply (ask_renames_keeps_sources o (sd :: pre_existing') operations tr1);
      [| done].
    intros s (sd' & -> & Hin)%list_elem_of_fmap.
    apply list_elem_of_fmap. exists sd'. split; [done |].
    rewrite <- Hpre in Hin.
    by apply (filter_by_answers o (λ sd, path_exists sd.2) operations tr sd').
Qed.

(** ** Where a cut or a copy puts a path *)

Lemma split_last_sep_free (n : string) :
  sep_free n = true → split_last n = ("", n).
Proof.
  induction n as [| c n IH]; [done |]. simpl.
  intros [Hc Hn]%andb_prop. rewrite (IH Hn).
  by destruct (is_sep c).
Qed.

Lemma basename_sep_free (p : string) : sep_free (basename p) = true.
Proof.
  unfold basename. induction p as [| c p IH]; [done |]. simpl.
  destruct (split_last p) as [[| c' h] t]; simpl in *; [| done].
  destruct (is_sep c) eqn:Hc; simpl; [done |]. by rewrite Hc.
Qed.

Lemma split_last_app_sep (a n : string) :
  ends_with_sep a = true → sep_free n = true →
  split_last (a +:+ n) = (a, n).
Proof.
  intros Ha Hn. induction a as [| c a IH]; [done |].
  rewrite string_app_cons. cbn [split_last].
  destruct a as [| c' a].
  - change ("" +:+ n) with n. rewrite (split_last_sep_free n Hn).
    cbn [ends_with_sep] in Ha. by rewrite Ha.
  - rewrite IH by exact Ha. done.
Qed.

Lemma ends_with_sep_app_sep (a : string) : ends_with_sep (a +:+ "/") = true.
Proof.
  induction a as [| c a IH]; [done |]. rewrite string_app_cons.
  simpl. destruct (a +:+ "/") eqn:E; [| done].
  by destruct a.
Qed.

Lemma rstrip_sep_app_sep (a : string) :
  rstrip_sep (a +:+ "/") = rstrip_sep a.
Proof.
  induction a as [| c a IH]; [done |]. rewrite string_app_cons. simpl.
  by rewrite IH.
Qed.

Lemma sep_free_starts (n : string) :
  sep_free n = true → starts_with_sep n = false.
Proof. destruct n as [| c n]; [done |]. simpl. by destruct (is_sep c). Qed.

Lemma ends_with_sep_rstrip (a : string) :
  a ≠ "" → rstrip_sep a = a → ends_with_sep a = false.
Proof.
  induction a as [| c a IH]; [done |]. intros _. simpl.
  destruct (rstrip_sep a) as [| c' r] eqn:Hr.
  - destruct (is_sep c) eqn:Hc; [done |].
    by intros [= <-].
  - intros [= Ha]. rewrite Ha in Hr.
    destruct a as [| c'' a]; [done |]. by apply IH.
Qed.

(** X11: the destination [_find_dest] computes keeps the basename of the
    source, whatever the node; and when the target directory is not
    empty and has no trailing separator, the destination lies directly
    in it. *)
Theorem find_dest_keeps_basename (src : Path) (node : Node) :
  let parent :=
    if bool_decide (folder ∈ Node.mode node) then Node.path node
    else dirname (Node.path node) in
  basename (_find_dest src node) = basename src
  ∧ (parent ≠ "" → rstrip_sep parent = parent →
     _find_dest src node = parent +:+ "/" +:+ basename src
     ∧ dirname (_find_dest src node) = parent).
Proof.
  intros parent. unfold _find_dest, is_dir. fold parent.
  pose proof (basename_sep_free src) as Hfree.
  set (name := basename src) in *.
  unfold join. rewrite (sep_free_starts name Hfree).
  split.
  - destruct parent as [| c parent'] eqn:Hparent.
    + unfold basename. by rewrite (split_last_sep_free name Hfree).
    + destruct (ends_with_sep (String c parent')) eqn:Hends.
      * unfold basename. by rewrite split_last_app_sep.
      * unfold basename. rewrite <- string_app_assoc.
        rewrite split_last_app_sep; [done | | done].
        apply ends_with_sep_app_sep.
  - intros Hne Hstrip.
    rewrite (ends_with_sep_rstrip parent Hne Hstrip).
    destruct parent as [| c parent'] eqn:Hparent; [done |].
    split; [done |].
    unfold dirname. rewrite <- string_app_assoc.
    rewrite split_last_app_sep; [| apply ends_with_sep_app_sep | done].
    simpl fst. rewrite rstrip_sep_app_sep, Hstrip. done.
Qed.

(** ** What the handlers never do to the file system *)

Lemma calm_mutations {A : Type} (o : Oracle) (p : Prog A) tr :
  calm p → mutations (fresh o p tr) = [].
Proof.
  intros Hp. revert tr.
  induction Hp as [a | X e k He Hk IH]; intros tr.
  - by rewrite fresh_ret.
  - rewrite fresh_vis. unfold mutations.
    rewrite filter_cons_False; [apply IH |].
    simpl. by rewrite He.
Qed.

Lemma mutations_app (l1 l2 : list Event) :
  mutations (l1 ++ l2) = mutations l1 ++ mutations l2.
Proof. apply filter_app. Qed.

Ltac calm_step :=
  first
    [ apply calm_forward
    | apply calm_open_file
    | apply calm_ask_yesno
    | apply calm_p_pre
    | apply quiet_calm, quiet_index
    | apply quiet_calm, quiet_indices
    | apply quiet_calm, quiet_delete_selection
    | apply quiet_calm, quiet_delete_display_list
    | apply quiet_calm, quiet_ask_renames
    | apply quiet_calm, quiet_traverse, quiet_display_pair
    | apply quiet_calm, quiet_filter_by; intro; by apply quiet_call
    | apply (free_of_ret (@mutation))
    | apply calm_bind; [| intro]
    | apply (free_of_vis (@mutation)); [reflexivity | intro]
    | match goal with
      | |- calm (if ?b then _ else _) => destruct b
      | |- calm (match ?x with _ => _ end) => destruct x
      | |- free_of _ (if ?b then _ else _) => destruct b
      | |- free_of _ (match ?x with _ => _ end) => destruct x
      end ].

Ltac solve_calm' := repeat calm_step.

Lemma calm_refresh state settings write_out :
  calm (_refresh state settings write_out).
Proof. unfold _refresh, _vc_stat. solve_calm'. Qed.

Lemma calm_current state settings current :
  calm (_current state settings current).
Proof. unfold _current. solve_calm'. Qed.

Ltac calm_step' := first [apply calm_refresh | apply calm_current | calm_step].

(** X12: the handlers other than delete, trash, rename, new, cut and copy
    never change the file system: no run of a click, a collapse, a
    selection, a filter or resize action, a follow, a jump, a refresh or
    a toggle holds a call that creates, renames, removes, trashes, cuts
    or copies. *)
Theorem passive_handlers_never_mutate (o : Oracle) tr state settings
    click_type is_visual direction write_out :
  mutations (fresh o (_click state settings click_type) tr) = []
  ∧ mutations (fresh o (c_collapse state settings) tr) = []
  ∧ mutations (fresh o (c_select state settings is_visual) tr) = []
  ∧ mutations (fresh o (c_clear_selection state settings) tr) = []
  ∧ mutations (fresh o (c_new_filter state settings) tr) = []
  ∧ mutations (fresh o (c_clear_filter state settings) tr) = []
  ∧ mutations (fresh o (_resize state settings direction) tr) = []
  ∧ mutations (fresh o (a_follow state settings) tr) = []
  ∧ mutations (fresh o (c_jump_to_current state settings) tr) = []
  ∧ mutations (fresh o (_refresh state settings write_out) tr) = []
  ∧ mutations (fresh o (a_quickfix state settings) tr) = []
  ∧ mutations (fresh o (c_hidden state settings) tr) = []
  ∧ mutations (fresh o (c_toggle_follow state settings) tr) = []
  ∧ mutations (fresh o (c_toggle_vc state settings) tr) = [].
Proof.
  repeat split; apply calm_mutations.
  - unfold _click. solve_calm'.
  - unfold c_collapse. solve_calm'.
  - unfold c_select. solve_calm'.
  - unfold c_clear_selection. solve_calm'.
  - unfold c_new_filter. solve_calm'.
  - unfold c_clear_filter. solve_calm'.
  - unfold _resize. solve_calm'.
  - unfold a_follow. solve_calm'. apply calm_current.
  - unfold c_jump_to_current. solve_calm'. apply calm_current.
  - apply calm_refresh.
  - unfold a_quickfix. solve_calm'.
  - unfold c_hidden. solve_calm'.
  - unfold c_toggle_follow. solve_calm'.
  - unfold c_toggle_vc, _vc_stat. solve_calm'.
Qed.

Lemma calm_mutates_once {A : Type} (p : Prog A) : calm p → mutates_once p.
Proof.
  intros Hp. induction Hp as [a | X e k He Hk IH]; constructor.
  - intros _. apply IH.
  - intros Hm. by rewrite He in Hm.
Qed.

Lemma mutates_once_bind_calm {A B : Type} (p : Prog A) (f : A → Prog B) :
  calm p → (∀ a, mutates_once (f a)) → mutates_once (bind p f).
Proof.
  intros Hp Hf. induction Hp as [a | X e k He Hk IH]; simpl; [apply Hf |].
  constructor.
  - intros _. apply IH.
  - intros Hm. by rewrite He in Hm.
Qed.

Lemma mutates_once_run {A : Type} (o : Oracle) (p : Prog A) tr :
  mutates_once p → (length (mutations (fresh o p tr)) ≤ 1)%nat.
Proof.
  intros Hp. revert tr.
  induction Hp as [a | X e k Hcalm IH Hmut]; intros tr.
  - rewrite fresh_ret. simpl. lia.
  - rewrite fresh_vis. unfold mutations. destruct (mutation e) eqn:He.
    + rewrite filter_cons_True by (simpl; by rewrite He).
      fold (mutations (fresh o (k (o X tr e)) (tr ++ [Ev e (o X tr e)]))).
      rewrite calm_mutations by (by apply Hmut). simpl. lia.
    + rewrite filter_cons_False by (simpl; by rewrite He).
      by apply IH.
Qed.

Ltac once_step :=
  first
    [ apply mutates_once_ret
    | apply mutates_once_bind_calm; [solve [repeat calm_step'] | intro]
    | apply mutates_once_vis;
      [ first [ intros Hm; discriminate Hm | intros _ ?; cbn beta ]
      | first [ intros Hm; discriminate Hm
              | intros _ ?; cbn beta;
                solve [repeat calm_step'] ] ]
    | match goal with
      | |- mutates_once (if ?b then _ else _) => destruct b
      | |- mutates_once (match ?x with _ => _ end) => destruct x
      end
    | progress cbn [bind call] ].

(** X13: a run of a mutating handler ([c_delete], [c_trash], [c_rename],
    [c_new], [c_cut], [c_copy]) holds at most one call that changes the
    file system: a batch is handed over in one call, and nothing is
    retried after a failure. *)
Theorem mutating_handlers_mutate_once (o : Oracle) tr state settings
    handler :
  mutating_handler state settings handler →
  (length (mutations (fresh o handler tr)) ≤ 1)%nat.
Proof.
  intros Hhandler. apply mutates_once_run.
  destruct Hhandler as [is_visual | is_visual | | | |].
  - unfold c_delete, _delete. repeat once_step.
  - unfold c_trash, _delete. repeat once_step.
  - unfold c_rename. repeat once_step.
  - unfold c_new. repeat once_step.
  - unfold c_cut, _operation. repeat once_step.
  - unfold c_copy, _operation. repeat once_step.
Qed.

Lemma calm_asks_first {A : Type} (p : Prog A) : calm p → asks_first p.
Proof.
  intros Hp. induction Hp as [a | X e k He Hk IH]; [constructor |].
  by apply asks_first_vis.
Qed.

Lemma asks_first_bind_calm {A B : Type} (p : Prog A) (f : A → Prog B) :
  calm p → (∀ a, asks_first (f a)) → asks_first (bind p f).
Proof.
  intros Hp Hf. induction Hp as [a | X e k He Hk IH]; simpl; [apply Hf |].
  by apply asks_first_vis.
Qed.

(** After [ask_yesno], only the branch taken on "no" has to ask again. *)
Lemma asks_first_ask_yesno {B : Type} question (f : bool → Prog B) :
  asks_first (f false) → asks_first (bind (ask_yesno question) f).
Proof.
  intros Hf. unfold ask_yesno. cbn [bind call].
  apply asks_first_confirm. intros x Hx. cbn [bind].
  by rewrite (bool_decide_eq_false_2 _ Hx).
Qed.

Lemma asks_first_run {A : Type} (o : Oracle) (p : Prog A) tr pre ev post :
  asks_first p →
  fresh o p tr = pre ++ ev :: post →
  is_mutation ev = true →
  Exists (λ ev', affirmed ev' = true) pre.
Proof.
  intros Hp. revert tr pre.
  induction Hp as [a | question choices default k Hk IH | X e k He Hk IH];
    intros tr pre Hfresh Hmut.
  - rewrite fresh_ret in Hfresh. by destruct pre.
  - rewrite fresh_vis in Hfresh. destruct pre as [| ev0 pre].
    + injection Hfresh as <- _. discriminate Hmut.
    + injection Hfresh as <- Hrest.
      destruct (decide (o Z tr (confirm question choices default) = 1))
        as [Hyes | Hno].
      * apply Exists_cons_hd. simpl. by rewrite bool_decide_eq_true_2.
      * apply Exists_cons_tl. by apply (IH _ Hno _ _ Hrest).
  - rewrite fresh_vis in Hfresh. destruct pre as [| ev0 pre].
    + injection Hfresh as <- _. simpl in Hmut. by rewrite He in Hmut.
    + injection Hfresh as <- Hrest. apply Exists_cons_tl.
      by apply (IH _ _ _ Hrest).
Qed.

Ltac asks_step :=
  first
    [ apply asks_first_ret
    | apply asks_first_ask_yesno; cbn iota
    | apply asks_first_bind_calm; [solve [repeat calm_step'] | intro]
    | apply calm_asks_first; solve [repeat calm_step']
    | match goal with
      | |- asks_first (if ?b then _ else _) => destruct b
      | |- asks_first (match ?x with _ => _ end) => destruct x
      end ].

(** X14: in every run of delete, trash, cut or copy, a call that changes
    the file system comes after a confirmation that was answered with 1:
    nothing is removed, trashed, moved or copied without a "yes". *)
Theorem destructive_handlers_ask_first (o : Oracle) tr state settings
    is_visual pre ev post :
  (fresh o (c_delete state settings is_visual) tr = pre ++ ev :: post
   ∨ fresh o (c_trash state settings is_visual) tr = pre ++ ev :: post
   ∨ fresh o (c_cut state settings) tr = pre ++ ev :: post
   ∨ fresh o (c_copy state settings) tr = pre ++ ev :: post) →
  is_mutation ev = true →
  Exists (λ ev', affirmed ev' = true) pre.
Proof.
  intros [Hrun | [Hrun | [Hrun | Hrun]]] Hmut;
    apply (asks_first_run o _ tr pre ev post) in Hrun; try done.
  - unfold c_delete, _delete. repeat asks_step.
  - unfold c_trash, _delete. repeat asks_step.
  - unfold c_cut, _operation. repeat asks_step.
  - unfold c_copy, _operation. repeat asks_step.
Qed.

(** ** Buffers, rows and selection *)

(** X15: [find_buffer] returns the first of the listed buffers that has
    the number asked for, and nothing exactly when no listed buffer has
    it. *)
Theorem find_buffer_first (buffers : list Buffer) (bufnr : Z) :
  match find_buffer buffers bufnr with
  | Some buffer =>
      Buffer.number buffer = bufnr
      ∧ ∃ before after,
          buffers = before ++ buffer :: after
          ∧ Forall (λ b, Buffer.number b ≠ bufnr) before
  | None => Forall (λ b, Buffer.number b ≠ bufnr) buffers
  end.
Proof.
  induction buffers as [| b rest IH]; simpl; [constructor |].
  case_bool_decide as Hb.
  - split; [done |]. by exists [], rest.
  - destruct (find_buffer rest bufnr) as [buffer |].
    + destruct IH as [Hnum (before & after & -> & Hbefore)].
      split; [done |]. exists (b :: before), after.
      split; [done |]. by constructor.
    + by constructor.
Qed.

Lemma omap_length_le {A B : Type} (f : A → option B) (l : list A) :
  (length (omap f l) ≤ length l)%nat.
Proof.
  induction l as [| a l IH]; csimpl; [done |].
  destruct (f a); csimpl; lia.
Qed.

(** X16: every node [_indices] returns is the node of a row it looked at:
    in visual mode a row from the mark "<" to the mark ">" (counted from
    0, so from [r1 - 1] up to but not including [r2]; none when the marks
    are crossed), otherwise the row of the cursor.  It makes one query and
    no other call. *)
Theorem indices_rows (o : Oracle) tr state is_visual :
  let nodes := result_of o (_indices state is_visual) tr in
  let marks := o _ tr buf_get_marks in
  let cursor := o _ tr win_get_cursor in
  (∀ node, node ∈ nodes →
     ∃ row, state_index state row = Some node
            ∧ if is_visual then marks.1 - 1 ≤ row < marks.2
              else row = cursor.1 - 1)
  ∧ (is_visual = true → marks.2 < marks.1 → nodes = [])
  ∧ (length nodes
     ≤ if is_visual then Z.to_nat (marks.2 - (marks.1 - 1)) else 1)%nat
  ∧ trace_of o (_indices state is_visual) tr
    = tr ++ [if is_visual then Ev buf_get_marks marks
             else Ev win_get_cursor cursor].
Proof.
  intros nodes marks cursor. subst nodes.
  unfold result_of, trace_of, _indices. destruct is_visual; simpl.
  - fold marks. destruct marks as [r1 r2] eqn:Hmarks. simpl.
    repeat split.
    + intros node (row & Hrow & Hnode)%list_elem_of_omap.
      exists row. split; [done |]. apply elem_of_seqZ in Hrow. lia.
    + intros _ Hlt. rewrite seqZ_nil; [done | lia].
    + etrans; [apply omap_length_le |]. by rewrite length_seqZ.
  - fold cursor. repeat split.
    + intros node Hnode. exists (cursor.1 - 1).
      split; [| done]. destruct (state_index state (cursor.1 - 1));
        simpl in Hnode; [by apply list_elem_of_singleton in Hnode as -> |].
      by apply elem_of_nil in Hnode.
    + done.
    + by destruct (state_index state (cursor.1 - 1)); simpl; lia.
Qed.

Lemma sym_diff_twice (a b : gset Path) : sym_diff (sym_diff a b) b = a.
Proof.
  apply set_eq. intros x.
  rewrite !elem_of_sym_diff.
  destruct (decide (x ∈ a)), (decide (x ∈ b)); tauto.
Qed.

(** X17: [c_select] toggles: selecting the same rows twice gives back
    the selection there was (the rest of the state is kept too), and
    neither call rebuilds the tree or has a side effect. *)
Theorem select_twice_restores (o : Oracle) tr tr1 state settings is_visual
    stage1 :
  result_of o (c_select state settings is_visual) tr = Some stage1 →
  result_of o (_indices (Stage.state stage1) is_visual) tr1
  = result_of o (_indices state is_visual) tr →
  result_of o (c_select (Stage.state stage1) settings is_visual) tr1
  = Some (new_stage state)
  ∧ side_effects (fresh o (c_select state settings is_visual) tr) = []
  ∧ fresh o (c_select state settings is_visual) tr
    = fresh o (_indices state is_visual) tr.
Proof.
  intros Hfirst Hsame.
  assert (Hquiet : side_effects (fresh o (_indices state is_visual) tr) = [])
    by apply quiet_fresh, quiet_indices.
  assert (Hfresh : fresh o (c_select state settings is_visual) tr
                   = fresh o (_indices state is_visual) tr).
  { unfold c_select. rewrite fresh_bind.
    destruct is_visual; [simpl; by rewrite fresh_ret, app_nil_r |].
    destruct (result_of o (_indices state false) tr);
      simpl; by rewrite fresh_ret, app_nil_r. }
  rewrite Hfresh. split; [| done].
  unfold c_select in Hfirst |- *.
  rewrite result_of_bind in Hfirst. rewrite result_of_bind, Hsame.
  destruct is_visual.
  - injection Hfirst as <-. unfold result_of at 1. simpl.
    rewrite sym_diff_twice. by destruct state.
  - destruct (result_of o (_indices state false) tr) as [| node rest];
      [done |].
    injection Hfirst as <-. unfold result_of. simpl.
    rewrite sym_diff_twice. by destruct state.
Qed.

(** ** Opening a file, jumping, version control *)

(** X18: when the file's MIME type is on the warn list and its extension
    is not on the ignore list, [_open_file] asks before anything else,
    and an answer other than 1 ends it: no stage, nothing shown.
    Otherwise it does not ask, shows the file and returns a state whose
    [current] is the path. *)
Theorem open_file_guard (o : Oracle) tr state settings path click_type :
  let name := basename path in
  let mime := guess_type name in
  let warned :=
    bool_decide (before_slash (default "" mime) ∈ Settings.mime_warn settings)
    && negb (bool_decide
               (splitext_ext name ∈ Settings.mime_ignore_exts settings)) in
  let ask :=
    confirm (LANG "mime_warn" [("name", name); ("mime", default "None" mime)])
            (LANG "ask_yesno" [("linesep", linesep)]) 2 in
  (warned = true → o _ tr ask ≠ 1 →
   run o (_open_file state settings path click_type) tr
   = (tr ++ [Ev ask (o _ tr ask)], None))
  ∧ (warned = false →
     ∃ new_state shown,
       run o (_open_file state settings path click_type) tr
       = (tr ++ [Ev (show_file new_state settings click_type) shown],
          Some (new_stage new_state))
       ∧ State.current new_state = Some path
       ∧ State.index new_state = State.index state
       ∧ State.selection new_state = State.selection state).
Proof.
  intros name mime warned ask. unfold _open_file.
  fold name. fold mime. fold warned. split; intros Hwarned.
  - intros Hno. rewrite Hwarned, run_bind.
    unfold result_of, trace_of. rewrite run_ask_yesno. cbn [fst snd].
    fold ask. by rewrite (bool_decide_eq_false_2 _ Hno).
  - rewrite Hwarned. simpl. by eexists _, _.
Qed.

(** X19: [c_jump_to_current] returns a stage exactly when the state has a
    non-empty [current] that lies under the root; the stage then has
    that path as its focus and as its [current], and an index that is the
    old one, joined with the ancestors of the path when follow is on.
    In the other cases it makes no call at all. *)
Theorem jump_to_current_focus (o : Oracle) tr state settings :
  let jumps :=
    match State.current state with
    | Some current =>
        nonempty current && is_parent (Node.path (State.root state)) current
    | None => false
    end in
  (jumps = false → run o (c_jump_to_current state settings) tr = (tr, None))
  ∧ (jumps = true →
     ∃ new_state,
       result_of o (c_jump_to_current state settings) tr
       = Some {| Stage.state := new_state;
                 Stage.focus := State.current state |}
       ∧ State.current new_state = State.current state
       ∧ State.selection new_state = State.selection state
       ∧ State.index new_state
         = State.index state
           ∪ (if State.follow state
              then list_to_set (ancestors (default "" (State.current state)))
              else ∅)).
Proof.
  intros jumps. subst jumps. unfold c_jump_to_current, _current.
  destruct (State.current state) as [current |]; [| by split].
  destruct (nonempty current); [| by split].
  destruct (is_parent (Node.path (State.root state)) current); [| by split].
  split; [done |]. intros _. unfold result_of. simpl. by eexists.
Qed.

(** X20: [c_toggle_vc] turning version control off stores the empty
    status without asking for one; turning it on asks once and stores the
    answer.  Either way the tree is not rebuilt: index, selection and
    rows are kept, and the only other call writes the new setting. *)
Theorem toggle_vc_status (o : Oracle) tr state settings :
  let indicator (enable_vc : bool) :=
    write (LANG "version_control_indi" [("enable_vc", str_bool enable_vc)])
          false in
  let asked := o _ tr status in
  ∃ new_state,
    result_of o (c_toggle_vc state settings) tr = new_stage new_state
    ∧ State.enable_vc new_state = negb (State.enable_vc state)
    ∧ State.vc new_state
      = (if State.enable_vc state then VCStatus.empty else asked)
    ∧ State.root new_state = State.root state
    ∧ State.index new_state = State.index state
    ∧ State.selection new_state = State.selection state
    ∧ State.paths_lookup new_state = State.paths_lookup state
    ∧ ∃ written,
        fresh o (c_toggle_vc state settings) tr
        = (if State.enable_vc state then [] else [Ev status asked])
          ++ [Ev (indicator (negb (State.enable_vc state))) written].
Proof.
  intros indicator asked. unfold c_toggle_vc, result_of.
  destruct (State.enable_vc state) eqn:Hvc; simpl;
    (eexists; split; [reflexivity |]; simpl; repeat (split; [done |]));
    rewrite ?fresh_vis, ?fresh_ret; by eexists.
Qed.

(** ** Refresh *)

Lemma forward_index (o : Oracle) state settings kws tr :
  State.index (result_of o (forward state settings kws) tr)
  = default (State.index state) (kw_get pick_index kws).
Proof. unfold result_of, forward. by destruct (_ || _). Qed.

Lemma forward_selection_plain (o : Oracle) state settings kws tr :
  kw_get pick_filter_pattern kws = None →
  State.selection (result_of o (forward state settings kws) tr)
  = default (State.selection state) (kw_get pick_selection kws).
Proof.
  intros Hfilter. unfold result_of, forward. rewrite Hfilter.
  by destruct (_ || _).
Qed.

(** X21: [_refresh] keeps of the index the paths that were answered to
    exist, always with the root; the ancestors of the current buffer's
    file are added only when follow is on and that file does not lie
    under the root.  Of the selection it keeps the paths answered to
    exist, and nothing when a filter is set. *)
Theorem refresh_prunes (o : Oracle) tr state settings write_out :
  let new_state :=
    Stage.state (result_of o (_refresh state settings write_out) tr) in
  let events := fresh o (_refresh state settings write_out) tr in
  let cwd := Node.path (State.root state) in
  cwd ∈ State.index new_state
  ∧ (∃ current,
       Ev find_current_buffer_name current ∈ events
       ∧ ∀ p, p ∈ State.index new_state →
           p = cwd
           ∨ (p ∈ State.index state ∧ Ev (path_exists p) true ∈ events)
           ∨ (State.follow state = true
              ∧ (is_parent cwd current && nonempty current) = false
              ∧ p ∈ ancestors current))
  ∧ (∀ p, p ∈ State.index state → p ∉ State.index new_state →
       Ev (path_exists p) false ∈ events)
  ∧ (∀ p, p ∈ State.selection new_state →
       State.filter_pattern state = None
       ∧ p ∈ State.selection state ∧ Ev (path_exists p) true ∈ events).
Proof.
  intros new_state events cwd. subst new_state events.
  unfold _refresh. fold cwd.
  set (p0 := if write_out then call (write (LANG "hourglass" []) false)
             else Ret tt).
  rewrite result_of_bind, fresh_bind. set (tr0 := trace_of o p0 tr).
  rewrite result_of_bind, fresh_bind.
  change (result_of o (call find_current_buffer_name) tr0)
    with (o _ tr0 find_current_buffer_name).
  set (current := o _ tr0 find_current_buffer_name).
  change (fresh o (call find_current_buffer_name) tr0)
    with (fresh o (Vis find_current_buffer_name Ret) tr0).
  rewrite fresh_vis, fresh_ret. fold current.
  set (tr1 := trace_of o (call find_current_buffer_name) tr0).
  set (new_current := if is_parent cwd current then Some current else None).
  assert (Htruthy : truthy new_current = is_parent cwd current && nonempty current)
    by (subst new_current; by destruct (is_parent cwd current)).
  rewrite result_of_bind, fresh_bind.
  set (look := filter_by (λ i, call (path_exists i))
                 (elements (State.index state))).
  set (existing := result_of o look tr1). set (tr2 := trace_of o look tr1).
  rewrite result_of_bind, fresh_bind.
  set (pick := if supplied (State.filter_pattern state)
               then Ret (∅ : gset Path)
               else bind (filter_by (λ s, call (path_exists s))
                            (elements (State.selection state)))
                      (λ selected, Ret (list_to_set selected))).
  set (selection := result_of o pick tr2). set (tr3 := trace_of o pick tr2).
  rewrite result_of_bind, fresh_bind.
  set (qf := result_of o (call quickfix) tr3).
  set (tr4 := trace_of o (call quickfix) tr3).
  rewrite result_of_bind, fresh_bind.
  set (vc := result_of o (_vc_stat (State.enable_vc state)) tr4).
  set (tr5 := trace_of o (_vc_stat (State.enable_vc state)) tr4).
  rewrite result_of_bind, fresh_bind.
  set (new_index :=
         if truthy new_current then list_to_set existing ∪ {[cwd]}
         else list_to_set existing ∪ {[cwd]}
              ∪ (if State.follow state
                 then list_to_set (ancestors current) else ∅)).
  set (kws := [kw_index new_index; kw_selection selection; kw_qf qf;
               kw_vc vc; kw_paths {[cwd]}]
              ++ (if truthy new_current then [kw_current new_current]
                  else [])).
  set (new_state := result_of o (forward state settings kws) tr5).
  set (tr6 := trace_of o (forward state settings kws) tr5).
  assert (Hstage :
    Stage.state
      (result_of o
         (bind (if write_out then call (write (LANG "ok_sym" []) false)
                else Ret tt)
            (λ _, Ret (new_stage new_state))) tr6) = new_state)
    by (by destruct write_out).
  rewrite Hstage. clear Hstage.
  assert (Hindex : State.index new_state = new_index).
  { subst new_state. rewrite forward_index. subst kws.
    by destruct (truthy new_current). }
  assert (Hselection : State.selection new_state = selection).
  { subst new_state. rewrite forward_selection_plain; subst kws;
      by destruct (truthy new_current). }
  rewrite Hindex, Hselection.
  assert (Hexisting : ∀ p, p ∈ existing →
            p ∈ State.index state ∧ Ev (path_exists p) true ∈ fresh o look tr1).
  { intros p Hp.
    destruct (filter_by_answers o path_exists (elements (State.index state))
                tr1 p) as [Hyes _].
    destruct (Hyes Hp) as [Hin Hev]. split; [| done]. by apply elem_of_elements. }
  split; [| split; [| split]].
  - subst new_index. destruct (truthy new_current); set_solver.
  - exists current. split; [set_solver |]. intros p Hp.
    assert (Hcases : p ∈ existing ∨ p = cwd
                     ∨ (truthy new_current = false
                        ∧ State.follow state = true ∧ p ∈ ancestors current)).
    { subst new_index. destruct (truthy new_current);
        [set_solver |]. destruct (State.follow state); set_solver. }
    destruct Hcases as [Hex | [-> | (Hno & Hfollow & Hanc)]].
    + right. left. destruct (Hexisting p Hex) as [Hin Hev].
      split; [done |]. rewrite !elem_of_app. right. right. by left.
    + by left.
    + right. right. by rewrite <- Htruthy.
  - intros p Hp Hnot.
    destruct (filter_by_answers o path_exists (elements (State.index state))
                tr1 p) as [_ Hno].
    rewrite !elem_of_app. right. right. left. apply Hno.
    + by apply elem_of_elements.
    + fold look. fold existing. intros Hex. apply Hnot.
      subst new_index. destruct (truthy new_current); set_solver.
  - intros p Hp. subst selection pick.
    destruct (State.filter_pattern state) as [fp |] eqn:Hfp; simpl in Hp.
    + unfold result_of in Hp. simpl in Hp. set_solver.
    + split; [done |]. rewrite result_of_bind in Hp.
      unfold result_of at 1 in Hp. simpl in Hp.
      apply elem_of_list_to_set in Hp.
      destruct (filter_by_answers o path_exists
                  (elements (State.selection state)) tr2 p) as [Hyes _].
      destruct (Hyes Hp) as [Hin Hev].
      split; [by apply elem_of_elements |].
      rewrite !elem_of_app. right. right. right. left.
      simpl. rewrite fresh_bind, elem_of_app. by left.
Qed.

(** ** New and rename: when the change is made *)

(** X22: when the name is not taken and the rename does not raise,
    [c_rename] renames the node's path to the answer joined to the root,
    rebuilds the tree with the root, the new directory and its ancestors
    added to the index, and closes the buffers of the old path.  The
    selection is kept as it was. *)
Theorem rename_success (o : Oracle) tr state settings node child :
  result_of o (_index state) tr = Some node →
  let tr0 := trace_of o (_index state) tr in
  let parent := Node.path (State.root state) in
  let prompt := input (LANG "pencil" []) (relpath (Node.path node) parent) in
  let tr1 := tr0 ++ [Ev prompt (Some child)] in
  let new_name := join parent child in
  let tr2 := tr1 ++ [Ev (path_exists new_name) false] in
  let tr3 := tr2 ++ [Ev (rename (Node.path node) new_name) None] in
  let paths : gset Path :=
    {[parent; dirname new_name]}
    ∪ list_to_set (ancestors (dirname new_name)) in
  let rebuild :=
    update (State.root state) (State.index state ∪ paths) (Some paths) in
  o _ tr0 prompt = Some child →
  child ≠ "" →
  o _ tr1 (path_exists new_name) = false →
  o _ tr2 (rename (Node.path node) new_name) = None →
  ∃ new_state closing,
    run o (c_rename state settings) tr
    = (tr3 ++ [Ev rebuild (State.root new_state);
               Ev (kill_buffers {[Node.path node]}) closing],
       Some (new_stage new_state))
    ∧ State.index new_state = State.index state ∪ paths
    ∧ State.selection new_state = State.selection state.
Proof.
  intros Hnode tr0 parent prompt tr1 new_name tr2 tr3 paths rebuild
    Hchild Hne Hfree Hrenamed.
  assert (nonempty child = true) as Hnonempty by (by destruct child).
  unfold c_rename. rewrite run_bind, Hnode. cbn zeta. fold tr0 parent.
  fold prompt.
  rewrite run_bind.
  change (result_of o (call prompt) tr0) with (o _ tr0 prompt).
  change (trace_of o (call prompt) tr0)
    with (tr0 ++ [Ev prompt (o _ tr0 prompt)]).
  rewrite Hchild. fold tr1. rewrite Hnonempty. fold new_name.
  rewrite run_bind.
  change (result_of o (call (path_exists new_name)) tr1)
    with (o _ tr1 (path_exists new_name)).
  change (trace_of o (call (path_exists new_name)) tr1)
    with (tr1 ++ [Ev (path_exists new_name)
                     (o _ tr1 (path_exists new_name))]).
  rewrite Hfree. fold tr2.
  rewrite run_bind.
  change (result_of o (call (rename (Node.path node) new_name)) tr2)
    with (o _ tr2 (rename (Node.path node) new_name)).
  change (trace_of o (call (rename (Node.path node) new_name)) tr2)
    with (tr2 ++ [Ev (rename (Node.path node) new_name)
                     (o _ tr2 (rename (Node.path node) new_name))]).
  rewrite Hrenamed. fold tr3. fold paths.
  simpl.
  match goal with
  | |- ∃ _ _, (_, Some (new_stage ?s)) = _ ∧ _ => exists s
  end.
  eexists. split; [by rewrite <- !(assoc_L (++)) | done].
Qed.

Lemma run_bind_ret {A : Type} (o : Oracle) (p : Prog A) tr :
  run o (bind p Ret) tr = run o p tr.
Proof.
  rewrite run_bind. unfold result_of, trace_of. by destruct (run o p tr).
Qed.

(** X23: when the name is not taken and the creation does not raise,
    [c_new] creates the answer joined to the folder of the node (the
    node itself if it is a folder, the root when no node is under the
    cursor), rebuilds the tree with the ancestors of the new path added
    to the index, and goes on as [_open_file] does for the new path with
    a secondary click; what that returns is returned. *)
Theorem new_success (o : Oracle) tr state settings child :
  let tr0 := trace_of o (_index state) tr in
  let node := default (State.root state) (result_of o (_index state) tr) in
  let parent :=
    if bool_decide (folder ∈ Node.mode node) then Node.path node
    else dirname (Node.path node) in
  let prompt := input (LANG "pencil" []) "" in
  let tr1 := tr0 ++ [Ev prompt (Some child)] in
  let path := join parent child in
  let tr2 := tr1 ++ [Ev (path_exists path) false] in
  let tr3 := tr2 ++ [Ev (new path) None] in
  let paths : gset Path := list_to_set (ancestors path) in
  let rebuild :=
    update (State.root state) (State.index state ∪ paths) (Some paths) in
  o _ tr0 prompt = Some child →
  child ≠ "" →
  o _ tr1 (path_exists path) = false →
  o _ tr2 (new path) = None →
  ∃ new_state,
    run o (c_new state settings) tr
    = run o (_open_file new_state settings path secondary)
        (tr3 ++ [Ev rebuild (State.root new_state)])
    ∧ State.index new_state = State.index state ∪ paths
    ∧ State.selection new_state = State.selection state.
Proof.
  intros tr0 node parent prompt tr1 path tr2 tr3 paths rebuild
    Hchild Hne Hfree Hmade.
  assert (nonempty child = true) as Hnonempty by (by destruct child).
  unfold c_new. rewrite run_bind. cbn zeta. fold tr0.
  change (default (State.root state) (result_of o (_index state) tr))
    with node.
  change (if is_dir node then Node.path node else dirname (Node.path node))
    with parent.
  rewrite run_bind.
  change (result_of o (call (input (LANG "pencil" []) "")) tr0)
    with (o _ tr0 prompt).
  change (trace_of o (call (input (LANG "pencil" []) "")) tr0)
    with (tr0 ++ [Ev prompt (o _ tr0 prompt)]).
  rewrite Hchild. fold tr1. rewrite Hnonempty. fold path.
  rewrite run_bind.
  change (result_of o (call (path_exists path)) tr1)
    with (o _ tr1 (path_exists path)).
  change (trace_of o (call (path_exists path)) tr1)
    with (tr1 ++ [Ev (path_exists path) (o _ tr1 (path_exists path))]).
  rewrite Hfree. fold tr2.
  rewrite run_bind.
  change (result_of o (call (new path)) tr2) with (o _ tr2 (new path)).
  change (trace_of o (call (new path)) tr2)
    with (tr2 ++ [Ev (new path) (o _ tr2 (new path))]).
  rewrite Hmade. fold tr3. fold paths.
  rewrite run_bind.
  set (new_state := result_of o (forward state settings _) tr3).
  exists new_state. split; [| done].
  rewrite (run_bind_ret o (_open_file new_state settings path secondary)).
  reflexivity.
Qed.

(** ** Where the handlers write *)

Lemma vetted_after_nil history : vetted_after history [].
Proof. intros pre ev post Heq. by destruct pre. Qed.

Lemma mutations_middle (pre post : list Event) ev :
  is_mutation ev = true → mutations (pre ++ ev :: post) ≠ [].
Proof.
  intros Hmut Hnone. rewrite mutations_app in Hnone.
  apply app_eq_nil in Hnone as [_ Hnone]. unfold mutations in Hnone.
  by rewrite filter_cons_True in Hnone.
Qed.

Lemma vetted_after_calm history events :
  mutations events = [] → vetted_after history events.
Proof.
  intros Hcalm pre ev post -> Hmut. by destruct (mutations_middle pre post ev).
Qed.

Lemma vetted_after_app history calm_events events :
  mutations calm_events = [] →
  vetted_after (history ++ calm_events) events →
  vetted_after history (calm_events ++ events).
Proof.
  intros Hcalm Hevents pre ev post Heq Hmut d Hd.
  apply app_eq_inv in Heq as [(k & -> & Hk) | (k & -> & ->)].
  - destruct k as [| e k]; simpl in Hk.
    + rewrite app_nil_r in Hevents.
      rewrite <- (app_nil_r (history ++ pre)).
      by apply (Hevents [] ev post).
    + injection Hk as <- _. by destruct (mutations_middle pre k ev).
  - rewrite (assoc_L (++)). by apply (Hevents k ev post).
Qed.

Lemma vetted_after_cons history e events :
  is_mutation e = false →
  vetted_after (history ++ [e]) events →
  vetted_after history (e :: events).
Proof.
  intros He. apply (vetted_after_app history [e] events).
  unfold mutations. rewrite filter_cons_False; [done |]. by rewrite He.
Qed.

Lemma vetted_after_cons_mutation history m events :
  (∀ d, d ∈ targets m → Ev (path_exists d) false ∈ history) →
  mutations events = [] →
  vetted_after history (m :: events).
Proof.
  intros Hm Hcalm pre ev post Heq Hmut d Hd.
  destruct pre as [| e pre]; simpl in Heq.
  - injection Heq as <- _. rewrite app_nil_r. by apply Hm.
  - injection Heq as _ ->. by destruct (mutations_middle pre post ev).
Qed.

Ltac calm_events := apply calm_mutations; solve [repeat calm_step'].

Lemma vetted_new (o : Oracle) tr state settings :
  vetted (fresh o (c_new state settings) tr).
Proof.
  unfold vetted, c_new. rewrite fresh_bind.
  apply vetted_after_app; [calm_events |].
  cbn zeta. cbn [bind call]. rewrite fresh_vis.
  apply vetted_after_cons; [done |].
  destruct (o _ _ (input _ _)) as [child |];
    [| rewrite fresh_ret; apply vetted_after_nil].
  destruct (nonempty child); [| rewrite fresh_ret; apply vetted_after_nil].
  cbn [bind]. rewrite fresh_vis.
  apply vetted_after_cons; [done |].
  destruct (o _ _ (path_exists _)) eqn:Hfree.
  - apply vetted_after_calm. calm_events.
  - cbn [bind]. rewrite fresh_vis. apply vetted_after_cons_mutation.
    + intros d ->%list_elem_of_singleton.
      apply elem_of_app. right. by apply list_elem_of_singleton.
    + apply calm_mutations. destruct (o _ _ (new _)); repeat calm_step'.
Qed.

Lemma vetted_rename (o : Oracle) tr state settings :
  vetted (fresh o (c_rename state settings) tr).
Proof.
  unfold vetted, c_rename. rewrite fresh_bind.
  apply vetted_after_app; [calm_events |].
  destruct (result_of o (_index state) tr) as [node |];
    [| rewrite fresh_ret; apply vetted_after_nil].
  cbn zeta. cbn [bind call]. rewrite fresh_vis.
  apply vetted_after_cons; [done |].
  destruct (o _ _ (input _ _)) as [child |];
    [| rewrite fresh_ret; apply vetted_after_nil].
  destruct (nonempty child); [| rewrite fresh_ret; apply vetted_after_nil].
  cbn [bind]. rewrite fresh_vis.
  apply vetted_after_cons; [done |].
  destruct (o _ _ (path_exists _)) eqn:Hfree.
  - apply vetted_after_calm. calm_events.
  - cbn [bind]. rewrite fresh_vis. apply vetted_after_cons_mutation.
    + intros d ->%list_elem_of_singleton.
      apply elem_of_app. right. by apply list_elem_of_singleton.
    + apply calm_mutations. destruct (o _ _ (rename _ _)); repeat calm_step'.
Qed.

Lemma vetted_operation (o : Oracle) tr state settings op_name
    (action : list (Path * Path) → Eff (option Exn)) :
  (∀ operations x, targets (Ev (action operations) x) = operations.*2) →
  (∀ operations, mutation (action operations) = true) →
  vetted (fresh o (_operation state settings op_name action) tr).
Proof.
  intros Htargets Haction. unfold vetted, _operation. rewrite fresh_bind.
  apply vetted_after_app; [calm_events |].
  set (tr0 := trace_of o (_index state) tr).
  destruct (result_of o (_index state) tr) as [node |];
    destruct (elements (unify_ancestors (State.selection state)))
      as [| u unified];
    try (apply vetted_after_calm; calm_events).
  cbn zeta. set (operations := pre_op (u :: unified) node).
  rewrite fresh_bind. apply vetted_after_app; [calm_events |].
  set (pre_existing := result_of o (p_pre operations) tr0).
  set (tr1 := trace_of o (p_pre operations) tr0).
  match goal with
  | |- vetted_after _ (fresh o (bind ?p ?f) _) =>
      change p with (resolve_collisions pre_existing operations)
  end.
  rewrite fresh_bind.
  apply vetted_after_app;
    [apply calm_mutations, quiet_calm, quiet_resolve_collisions |].
  destruct (result_of o (resolve_collisions pre_existing operations) tr1)
    as [[operations' [| sd still]] |] eqn:Hresolved.
  - rewrite fresh_bind. apply vetted_after_app; [calm_events |].
    rewrite fresh_bind. apply vetted_after_app; [calm_events |].
    destruct (result_of o (ask_yesno _) _);
      [| rewrite fresh_ret; apply vetted_after_nil].
    cbn [bind call]. rewrite fresh_vis. apply vetted_after_cons_mutation.
    + intros d Hd. rewrite Htargets in Hd.
      pose proof (resolved_destinations_free o operations tr0 operations' d
                    Hresolved Hd) as Hfree.
      fold pre_existing tr1 in Hfree.
      apply elem_of_app in Hfree. rewrite !elem_of_app. tauto.
    + apply calm_mutations. destruct (o _ _ (action _)); repeat calm_step'.
  - apply vetted_after_calm. calm_events.
  - rewrite fresh_ret. apply vetted_after_nil.
Qed.

(** X24: whatever the world answers, [c_new], [c_rename], [c_cut] and
    [c_copy] write only to paths that were answered not to exist earlier
    in the same run: the new path, the new name, and every destination of
    the batch that is handed over. *)
Theorem writes_only_to_free_paths (o : Oracle) tr state settings :
  vetted (fresh o (c_new state settings) tr)
  ∧ vetted (fresh o (c_rename state settings) tr)
  ∧ vetted (fresh o (c_cut state settings) tr)
  ∧ vetted (fresh o (c_copy state settings) tr).
Proof.
  split; [apply vetted_new |]. split; [apply vetted_rename |].
  split; by apply vetted_operation.
Qed.

End MoreProperties.

(** * More scenarios *)

(** The cursor is below the last row: click, collapse and rename give no
    stage. *)
Lemma cursor_below_rows :
  let o := Demo.oracle (Demo.world 99 1 [] ∅ None) in
  let state := Demo.state {["/proj"]} ∅ None in
  result_of o
    (@_click (Demo.collaborators Demo.rows) state Demo.settings primary) []
  = None
  ∧ result_of o
      (@c_collapse (Demo.collaborators Demo.rows) state Demo.settings) []
    = None
  ∧ result_of o
      (@c_rename (Demo.collaborators Demo.rows) state Demo.settings) []
    = None.
Proof.
  destruct (@no_node_no_action (Demo.collaborators Demo.rows)
              (Demo.oracle (Demo.world 99 1 [] ∅ None)) []
              (Demo.state {["/proj"]} ∅ None) Demo.settings primary)
    as (Hclick & Hcollapse & Hrename & _); [reflexivity |].
  unfold result_of. by rewrite Hclick, Hcollapse, Hrename.
Defined.

(** The first row shows the dead link [/proj/dead]: the click writes the
    error and gives no stage. *)
Lemma click_on_dead_link :
  let dead :=
    {| Node.path := "/proj/dead"; Node.name := "dead";
       Node.mode := {[link; orphan_link]}; Node.children := None |} in
  run (Demo.oracle (Demo.world 0 1 [] ∅ None))
    (@_click (Demo.collaborators [dead]) (Demo.state {["/proj"]} ∅ None)
       Demo.settings primary) []
  = ([Ev current_win_is_fm true; Ev win_get_cursor (1, 0);
      Ev (write "dead_link:dead" true) ()], None).
Proof.
  intros dead.
  rewrite (@click_dead_link (Demo.collaborators [dead])
             (Demo.oracle (Demo.world 0 1 [] ∅ None)) []
             (Demo.state {["/proj"]} ∅ None) Demo.settings primary dead).
  - reflexivity.
  - reflexivity.
  - by_computation.
Defined.

(** The cursor is on [/proj/a.txt], a file directly in the root:
    collapse gives no stage. *)
Lemma collapse_file_in_root :
  result_of (Demo.oracle (Demo.world 6 1 [] ∅ None))
    (@c_collapse (Demo.collaborators Demo.rows)
       (Demo.state {["/proj"; "/proj/src"]} ∅ None) Demo.settings) []
  = None.
Proof.
  unfold result_of.
  rewrite (@collapse_root_refused (Demo.collaborators Demo.rows)
             (Demo.oracle (Demo.world 6 1 [] ∅ None)) []
             (Demo.state {["/proj"; "/proj/src"]} ∅ None) Demo.settings
             (Demo.file_node "/proj/a.txt")); reflexivity.
Defined.

(** Rename of [/proj/a.txt] to [dst], which exists: the state comes back
    as it was. *)
Lemma rename_onto_existing :
  result_of (Demo.oracle (Demo.world 6 1 [Some "dst"] {["/proj/dst"]} None))
    (@c_rename (Demo.collaborators Demo.rows)
       (Demo.state {["/proj"]} ∅ None) Demo.settings) []
  = Some (new_stage (Demo.state {["/proj"]} ∅ None)).
Proof.
  destruct (@rename_refuses_empty_and_existing (Demo.collaborators Demo.rows)
              (Demo.oracle
                 (Demo.world 6 1 [Some "dst"] {["/proj/dst"]} None)) []
              (Demo.state {["/proj"]} ∅ None) Demo.settings
              (Demo.file_node "/proj/a.txt") eq_refl)
    as (_ & Hexisting & _).
  cbv zeta in Hexisting.
  specialize (Hexisting "dst" eq_refl ltac:(discriminate) eq_refl).
  unfold result_of. by rewrite Hexisting.
Defined.

(** Cut with nothing selected: the error is written, no stage. *)
Lemma cut_nothing_selected :
  result_of (Demo.oracle (Demo.world 3 1 [] ∅ None))
    (@c_cut (Demo.collaborators Demo.rows)
       (Demo.state {["/proj"]} ∅ None) Demo.settings) []
  = None
  ∧ side_effects
      (fresh (Demo.oracle (Demo.world 3 1 [] ∅ None))
         (@c_cut (Demo.collaborators Demo.rows)
            (Demo.state {["/proj"]} ∅ None) Demo.settings) [])
    = [].
Proof.
  destruct (@operation_nothing_selected (Demo.collaborators Demo.rows)
              (Demo.oracle (Demo.world 3 1 [] ∅ None)) []
              (Demo.state {["/proj"]} ∅ None) Demo.settings
              (@LANG (Demo.collaborators Demo.rows) "cut" []) cut)
    as [Hrun Hquiet]; [by left |].
  split; [| exact Hquiet].
  unfold result_of, c_cut. by rewrite Hrun.
Defined.

(** Cut of [/proj/a.txt] onto [/proj/dst], where [a.txt] exists; the
    user answers with [/proj/dst/b.txt], which exists too: a warning, no
    stage, no side effect. *)
Lemma cut_renamed_onto_existing :
  let o :=
    Demo.oracle
      (Demo.world 3 1 [Some "/proj/dst/b.txt"]
         {["/proj/dst/a.txt"; "/proj/dst/b.txt"]} None) in
  let state := Demo.state {["/proj"]} {["/proj/a.txt"]} None in
  result_of o (@c_cut (Demo.collaborators Demo.rows) state Demo.settings) []
  = None
  ∧ side_effects
      (fresh o (@c_cut (Demo.collaborators Demo.rows) state Demo.settings)
         [])
    = [].
Proof.
  destruct (@operation_still_colliding (Demo.collaborators Demo.rows)
              (Demo.oracle
                 (Demo.world 3 1 [Some "/proj/dst/b.txt"]
                    {["/proj/dst/a.txt"; "/proj/dst/b.txt"]} None)) []
              (Demo.state {["/proj"]} {["/proj/a.txt"]} None) Demo.settings
              (@LANG (Demo.collaborators Demo.rows) "cut" []) cut
              (Demo.dir_node "/proj/dst")
              [("/proj/a.txt", "/proj/dst/b.txt")]
              ("/proj/a.txt", "/proj/dst/b.txt") [])
    as [Hrun Hquiet].
  - reflexivity.
  - by_computation.
  - vm_compute. reflexivity.
  - split; [| exact Hquiet].
    unfold result_of, c_cut. by rewrite Hrun.
Defined.

(** Copy of [/proj/a.txt] onto [/proj/dst], nothing in the way, the
    confirmation answered with 2: no stage, and [/proj/dst/a.txt] was
    answered not to exist. *)
Lemma copy_declined :
  let o := Demo.oracle (Demo.world 3 2 [] ∅ None) in
  let state := Demo.state {["/proj"]} {["/proj/a.txt"]} None in
  result_of o (@c_copy (Demo.collaborators Demo.rows) state Demo.settings) []
  = None
  ∧ Ev (path_exists "/proj/dst/a.txt") false
      ∈ trace_of o
          (@c_copy (Demo.collaborators Demo.rows) state Demo.settings) [].
Proof.
  destruct (@operation_confirms_batch (Demo.collaborators Demo.rows)
              (Demo.oracle (Demo.world 3 2 [] ∅ None)) []
              (Demo.state {["/proj"]} {["/proj/a.txt"]} None) Demo.settings
              (@LANG (Demo.collaborators Demo.rows) "copy" []) copy
              (Demo.dir_node "/proj/dst")
              [("/proj/a.txt", "/proj/dst/a.txt")])
    as (_ & _ & _ & Hdeclined).
  - reflexivity.
  - by_computation.
  - vm_compute. reflexivity.
  - specialize (Hdeclined ltac:(discriminate)).
    unfold result_of, trace_of, c_copy. rewrite Hdeclined.
    split; [reflexivity |]. vm_compute. repeat constructor.
Defined.

(** The same copy, confirmed: the selection is emptied and the index
    gains the directories of the source and of the destination. *)
Lemma copy_confirmed :
  ∃ new_state,
    result_of (Demo.oracle (Demo.world 3 1 [] ∅ None))
      (@c_copy (Demo.collaborators Demo.rows)
         (Demo.state {["/proj"]} {["/proj/a.txt"]} None) Demo.settings) []
    = Some (new_stage new_state)
    ∧ State.selection new_state = ∅
    ∧ State.index new_state = {["/proj"; "/proj/dst"]}.
Proof.
  destruct (@operation_success (Demo.collaborators Demo.rows)
              (Demo.oracle (Demo.world 3 1 [] ∅ None)) []
              (Demo.state {["/proj"]} {["/proj/a.txt"]} None) Demo.settings
              (@LANG (Demo.collaborators Demo.rows) "copy" []) copy
              (Demo.dir_node "/proj/dst")
              [("/proj/a.txt", "/proj/dst/a.txt")])
    as (new_state & between & closing & Hrun & Hselection & Hindex & _).
  - reflexivity.
  - by_computation.
  - vm_compute. reflexivity.
  - reflexivity.
  - reflexivity.
  - exists new_state. split; [| split; [done |]].
    + unfold result_of, c_copy. by rewrite Hrun.
    + rewrite Hindex. reflexivity.
Defined.

(** The destination [/proj/dst/a.txt] exists and the user answers with
    [/proj/dst/b.txt]: the source stays [/proj/a.txt]. *)
Lemma renamed_batch :
  let o :=
    Demo.oracle
      (Demo.world 3 1 [Some "/proj/dst/b.txt"] {["/proj/dst/a.txt"]} None) in
  let operations := [("/proj/a.txt", "/proj/dst/a.txt")] in
  result_of o
    (@resolve_collisions (Demo.collaborators Demo.rows)
       (result_of o (p_pre operations) []) operations)
    (trace_of o (p_pre operations) [])
  = Some ([("/proj/a.txt", "/proj/dst/b.txt")], [])
  ∧ [("/proj/a.txt", "/proj/dst/b.txt")].*1 = operations.*1.
Proof.
  intros o operations. split; [vm_compute; reflexivity |].
  apply (@renames_keep_sources (Demo.collaborators Demo.rows) o operations []
           [("/proj/a.txt", "/proj/dst/b.txt")] []).
  vm_compute. reflexivity.
Defined.

(** A confirmed delete of [/proj/dir] changes the file system once. *)
Lemma delete_mutates_once :
  (length
     (mutations
        (fresh (Demo.oracle (Demo.world 4 1 [] ∅ None))
           (@c_delete (Demo.collaborators Demo.rows)
              (Demo.state {["/proj"]} {["/proj/dir"]} None) Demo.settings
              false) []))
   ≤ 1)%nat.
Proof.
  apply (@mutating_handlers_mutate_once (Demo.collaborators Demo.rows)
           (Demo.oracle (Demo.world 4 1 [] ∅ None)) []
           (Demo.state {["/proj"]} {["/proj/dir"]} None) Demo.settings).
  constructor.
Defined.

(** In the confirmed delete of [/proj/dir], the removal comes after the
    confirmation that was answered with 1. *)
Lemma delete_after_yes :
  Exists (λ ev, affirmed ev = true)
    [Ev (isdir "/proj/dir") true;
     Ev (confirm
           (@LANG (Demo.collaborators Demo.rows) "ask_trash"
              [("linesep", linesep); ("display_paths", "dir/")])
           (@LANG (Demo.collaborators Demo.rows) "ask_yesno"
              [("linesep", linesep)]) 2) 1].
Proof.
  apply (@destructive_handlers_ask_first (Demo.collaborators Demo.rows)
           (Demo.oracle (Demo.world 4 1 [] ∅ None)) []
           (Demo.state {["/proj"]} {["/proj/dir"]} None) Demo.settings false
           _ (Ev (remove ["/proj/dir"]) None)
           (drop 3
              (fresh (Demo.oracle (Demo.world 4 1 [] ∅ None))
                 (@c_delete (Demo.collaborators Demo.rows)
                    (Demo.state {["/proj"]} {["/proj/dir"]} None)
                    Demo.settings false) []))).
  - left. vm_compute. reflexivity.
  - reflexivity.
Defined.

(** [/proj/a.txt] is selected, then selected again: the selection is
    empty as before. *)
Lemma select_twice :
  result_of (Demo.oracle (Demo.world 6 1 [] ∅ None))
    (@c_select (Demo.collaborators Demo.rows)
       (Demo.state {["/proj"]} {["/proj/a.txt"]} None) Demo.settings false)
    []
  = Some (new_stage (Demo.state {["/proj"]} ∅ None)).
Proof.
  apply (@select_twice_restores (Demo.collaborators Demo.rows)
           (Demo.oracle (Demo.world 6 1 [] ∅ None)) [] []
           (Demo.state {["/proj"]} ∅ None) Demo.settings false
           (new_stage (Demo.state {["/proj"]} {["/proj/a.txt"]} None))).
  - vm_compute. reflexivity.
  - reflexivity.
Defined.

(** Rename of [/proj/a.txt] to [b.txt], a free name: a stage comes
    back, with the index as it was (the root is in it already). *)
Lemma rename_to_free_name :
  ∃ new_state,
    result_of (Demo.oracle (Demo.world 6 1 [Some "b.txt"] ∅ None))
      (@c_rename (Demo.collaborators Demo.rows)
         (Demo.state {["/proj"]} ∅ None) Demo.settings) []
    = Some (new_stage new_state)
    ∧ State.index new_state = {["/proj"]}.
Proof.
  destruct (@rename_success (Demo.collaborators Demo.rows)
              (Demo.oracle (Demo.world 6 1 [Some "b.txt"] ∅ None)) []
              (Demo.state {["/proj"]} ∅ None) Demo.settings
              (Demo.file_node "/proj/a.txt") "b.txt")
    as (new_state & closing & Hrun & Hindex & _).
  - reflexivity.
  - reflexivity.
  - discriminate.
  - reflexivity.
  - reflexivity.
  - exists new_state. split.
    + unfold result_of. by rewrite Hrun.
    + rewrite Hindex. reflexivity.
Defined.

(** New file [n.txt] with the cursor on the folder [/proj/src]: the path
    is [/proj/src/n.txt], and [/proj/src] enters the index. *)
Lemma new_in_folder :
  ∃ new_state,
    State.index new_state = {["/proj"; "/proj/src"]}
    ∧ run (Demo.oracle (Demo.world 1 1 [Some "n.txt"] ∅ None))
        (@c_new (Demo.collaborators Demo.rows)
           (Demo.state {["/proj"]} ∅ None) Demo.settings) []
      = run (Demo.oracle (Demo.world 1 1 [Some "n.txt"] ∅ None))
          (@_open_file (Demo.collaborators Demo.rows) new_state
             Demo.settings "/proj/src/n.txt" secondary)
          [Ev current_win_is_fm true; Ev win_get_cursor (2, 0);
           Ev (input (@LANG (Demo.collaborators Demo.rows) "pencil" []) "")
              (Some "n.txt");
           Ev (path_exists "/proj/src/n.txt") false;
           Ev (new "/proj/src/n.txt") None;
           Ev (update (Demo.dir_node "/proj") {["/proj"; "/proj/src"]}
                 (Some {["/proj"; "/proj/src"]}))
              (State.root new_state)].
Proof.
  destruct (@new_success (Demo.collaborators Demo.rows)
              (Demo.oracle (Demo.world 1 1 [Some "n.txt"] ∅ None)) []
              (Demo.state {["/proj"]} ∅ None) Demo.settings "n.txt")
    as (new_state & Hrun & Hindex & _).
  - reflexivity.
  - discriminate.
  - reflexivity.
  - reflexivity.
  - exists new_state. split.
    + rewrite Hindex. reflexivity.
    + rewrite Hrun. reflexivity.
Defined.
